(** * Mask-authoring canvas (CanvasEditor) and its export trigger (App)

    A shallow embedding of the React component [CanvasEditor] and of the
    export counter kept by [App].  React state is passed explicitly: a
    handler is a function from the props and state of the render it was
    created in to the next state, and handlers run one after the other, each
    one on the state the previous one left.

    JavaScript numbers are IEEE doubles.  They are modelled here by exact
    rationals extended with the two infinities and NaN, following the IEEE
    rules for the special values; rounding, overflow and the sign of zero
    are not modelled (a zero divisor is taken as +0). *)

From Stdlib Require Import ZArith QArith Qabs Bool List Ascii String Lia Lqa.
Import ListNotations.

Open Scope Z_scope.

(* ================================================================== *)
(** ** JavaScript numbers *)

Module JsNum.

Inductive num : Type :=
| Fin (q : Q)
| PosInf
| NegInf
| NaN.

Definition of_Z (z : Z) : num := Fin (inject_Z z).

(** [a - b] *)
Definition sub (a b : num) : num :=
  match a, b with
  | NaN, _ | _, NaN => NaN
  | Fin p, Fin q => Fin (p - q)
  | Fin _, PosInf => NegInf
  | Fin _, NegInf => PosInf
  | PosInf, PosInf => NaN
  | PosInf, _ => PosInf
  | NegInf, NegInf => NaN
  | NegInf, _ => NegInf
  end.

(** An infinity of the sign of [q], NaN when [q] is zero. *)
Definition signed_inf (positive : bool) (q : Q) : num :=
  match (q ?= 0)%Q with
  | Eq => NaN
  | Gt => if positive then PosInf else NegInf
  | Lt => if positive then NegInf else PosInf
  end.

(** [a * b] *)
Definition mul (a b : num) : num :=
  match a, b with
  | NaN, _ | _, NaN => NaN
  | Fin p, Fin q => Fin (p * q)
  | Fin p, PosInf | PosInf, Fin p => signed_inf true p
  | Fin p, NegInf | NegInf, Fin p => signed_inf false p
  | PosInf, PosInf | NegInf, NegInf => PosInf
  | PosInf, NegInf | NegInf, PosInf => NegInf
  end.

(** [a / b]; a finite non-zero number over zero is an infinity, 0/0 is NaN. *)
Definition div (a b : num) : num :=
  match a, b with
  | NaN, _ | _, NaN => NaN
  | Fin p, Fin q =>
      match (q ?= 0)%Q with
      | Eq => signed_inf true p
      | _ => Fin (p / q)
      end
  | Fin _, PosInf | Fin _, NegInf => Fin 0
  | PosInf, Fin q =>
      match (q ?= 0)%Q with Lt => NegInf | _ => PosInf end
  | NegInf, Fin q =>
      match (q ?= 0)%Q with Lt => PosInf | _ => NegInf end
  | _, _ => NaN
  end.

(** [a < b], false as soon as one side is NaN. *)
Definition ltb (a b : num) : bool :=
  match a, b with
  | NaN, _ | _, NaN => false
  | Fin p, Fin q => match (p ?= q)%Q with Lt => true | _ => false end
  | NegInf, NegInf => false
  | NegInf, _ => true
  | _, PosInf => match a with PosInf => false | _ => true end
  | _, _ => false
  end.

(** [a > b] *)
Definition gtb (a b : num) : bool := ltb b a.

(** [Math.min(a, b)]: NaN when an argument is NaN. *)
Definition min2 (a b : num) : num :=
  match a, b with
  | NaN, _ | _, NaN => NaN
  | _, _ => if ltb b a then b else a
  end.

(** [Math.min(a, b, c)] *)
Definition min3 (a b c : num) : num := min2 (min2 a b) c.

(** ToBoolean on a number: 0 and NaN are falsy. *)
Definition truthy (a : num) : bool :=
  match a with
  | NaN => false
  | Fin q => match (q ?= 0)%Q with Eq => false | _ => true end
  | _ => true
  end.

(** [a || b] on numbers *)
Definition or_else (a b : num) : num := if truthy a then a else b.

(** The literal [0.6]. *)
Definition zero_point_six : num := Fin (6 # 10).

End JsNum.

(* ================================================================== *)
(** ** components/CanvasEditor.tsx *)

Module CanvasEditor.
Import JsNum.

(** types.ts *)
Record Point : Type := { x : num; y : num }.

Record ImageDimensions : Type := { width : Z; height : Z }.

(** An element of the [paths] state: [{points: Point[], size: number}]. *)
Record Path : Type := { points : list Point; size : Z }.

(** The props the handlers read.  [imageSrc] only feeds the image loader
    and [onMaskReady] is the callback whose calls are logged by the caller. *)
Record Props : Type := {
  brushSize : Z;
  isProcessing : bool;
  triggerExport : Z
}.

(** The [useState] cells of the component. *)
Record State : Type := {
  isDrawing : bool;
  paths : list Path;
  currentPath : list Point;
  imgDimensions : ImageDimensions;
  scale : num
}.

Definition initialState : State :=
  {| isDrawing := false;
     paths := [];
     currentPath := [];
     imgDimensions := {| width := 0; height := 0 |};
     scale := of_Z 1 |}.

Definition setIsDrawing (b : bool) (st : State) : State :=
  {| isDrawing := b; paths := paths st; currentPath := currentPath st;
     imgDimensions := imgDimensions st; scale := scale st |}.

Definition setPaths (f : list Path -> list Path) (st : State) : State :=
  {| isDrawing := isDrawing st; paths := f (paths st);
     currentPath := currentPath st;
     imgDimensions := imgDimensions st; scale := scale st |}.

Definition setCurrentPath (f : list Point -> list Point) (st : State) : State :=
  {| isDrawing := isDrawing st; paths := paths st;
     currentPath := f (currentPath st);
     imgDimensions := imgDimensions st; scale := scale st |}.

Definition setImgDimensions (d : ImageDimensions) (st : State) : State :=
  {| isDrawing := isDrawing st; paths := paths st;
     currentPath := currentPath st;
     imgDimensions := d; scale := scale st |}.

Definition setScale (s : num) (st : State) : State :=
  {| isDrawing := isDrawing st; paths := paths st;
     currentPath := currentPath st;
     imgDimensions := imgDimensions st; scale := s |}.

(** *** Fit-to-container scaler *)

(** What [fitImageToContainer] reads of [containerRef.current]. *)
Record Container : Type := { clientWidth : Z; clientHeight : Z }.

(** The value handed to [setScale]. *)
Definition newScale (c : Container) (innerHeight imgW imgH : Z) : num :=
  let containerW := of_Z (clientWidth c) in
  let containerH :=
    or_else (of_Z (clientHeight c)) (mul (of_Z innerHeight) zero_point_six) in
  let scaleW := div containerW (of_Z imgW) in
  let scaleH := div containerH (of_Z imgH) in
  min3 scaleW scaleH (of_Z 1).

Definition fitImageToContainer (containerRef : option Container)
    (innerHeight imgW imgH : Z) (st : State) : State :=
  match containerRef with
  | None => st
  | Some c => setScale (newScale c innerHeight imgW imgH) st
  end.

(** [img.onload] of the image loader effect. *)
Definition imgOnload (containerRef : option Container) (innerHeight : Z)
    (imgWidth imgHeight : Z) (st : State) : State :=
  fitImageToContainer containerRef innerHeight imgWidth imgHeight
    (setImgDimensions {| width := imgWidth; height := imgHeight |} st).

Definition handleResize (containerRef : option Container) (innerHeight : Z)
    (st : State) : State :=
  if 0 <? width (imgDimensions st) then
    fitImageToContainer containerRef innerHeight
      (width (imgDimensions st)) (height (imgDimensions st)) st
  else st.

(** *** Coordinate mapper *)

Record DOMRect : Type := {
  rect_left : num; rect_top : num; rect_width : num; rect_height : num
}.

(** What [getCoordinates] reads of [canvasRef.current]: the size of the pixel
    buffer and the result of [getBoundingClientRect()]. *)
Record Canvas : Type := {
  canvas_width : Z;
  canvas_height : Z;
  boundingClientRect : DOMRect
}.

(** A mouse event, or a touch event with its list of touches, each reduced
    to [clientX] and [clientY]. *)
Inductive PointerEvt : Type :=
| Mouse (clientX clientY : num)
| Touch (touches : list (num * num)).

Definition clientXY (e : PointerEvt) : option (num * num) :=
  match e with
  | Touch [] => None
  | Touch (t :: _) => Some t
  | Mouse cx cy => Some (cx, cy)
  end.

Definition getCoordinates (canvasRef : option Canvas) (e : PointerEvt)
    : option Point :=
  match canvasRef with
  | None => None
  | Some canvas =>
      let rect := boundingClientRect canvas in
      match clientXY e with
      | None => None
      | Some (cX, cY) =>
          Some {| x := mul (sub cX (rect_left rect))
                           (div (of_Z (canvas_width canvas)) (rect_width rect));
                  y := mul (sub cY (rect_top rect))
                           (div (of_Z (canvas_height canvas)) (rect_height rect)) |}
      end
  end.

(** *** Stroke model *)

Definition startDrawing (props : Props) (canvasRef : option Canvas)
    (e : PointerEvt) (st : State) : State :=
  if isProcessing props then st
  else match getCoordinates canvasRef e with
       | Some point => setCurrentPath (fun _ => [point]) (setIsDrawing true st)
       | None => st
       end.

Definition draw (props : Props) (canvasRef : option Canvas)
    (e : PointerEvt) (st : State) : State :=
  if negb (isDrawing st) || isProcessing props then st
  else match getCoordinates canvasRef e with
       | Some point => setCurrentPath (fun prev => prev ++ [point]) st
       | None => st
       end.

Definition stopDrawing (props : Props) (st : State) : State :=
  setIsDrawing false
    (if isDrawing st && (0 <? List.length (currentPath st))%nat then
       setCurrentPath (fun _ => [])
         (setPaths (fun prev =>
                      prev ++ [{| points := currentPath st;
                                  size := brushSize props |}]) st)
     else st).

(** The undo button: [setPaths(p => p.slice(0, -1))]. *)
Definition undoLast (st : State) : State := setPaths (@removelast Path) st.

(** The clear button: [setPaths([]); setCurrentPath([])]. *)
Definition clearAll (st : State) : State :=
  setCurrentPath (fun _ => []) (setPaths (fun _ => []) st).

(** Both buttons are rendered under [paths.length > 0 && !isProcessing]. *)
Definition toolbarVisible (props : Props) (st : State) : bool :=
  (0 <? List.length (paths st))%nat && negb (isProcessing props).

(** *** Mask exporter *)

(** Normal completion, or the TypeError raised by reading a property of
    [undefined]. *)
Inductive Completion (A : Type) : Type :=
| Normal (a : A)
| TypeError.
Arguments Normal {A} a.
Arguments TypeError {A}.

Definition bind {A B : Type} (c : Completion A) (k : A -> Completion B)
    : Completion B :=
  match c with
  | Normal a => k a
  | TypeError => TypeError
  end.

Notation "v <- c ;; k" := (bind c (fun v => k))
  (at level 61, c at next level, right associativity).

(** The calls made on the 2D context of the off-screen canvas. *)
Inductive CanvasCall : Type :=
| SetFillStyle (colour : string)
| FillRect (rx ry rw rh : Z)
| SetLineCap (cap : string)
| SetLineJoin (join : string)
| SetStrokeStyle (colour : string)
| BeginPath
| SetLineWidth (w : Z)
| MoveTo (px py : num)
| LineTo (px py : num)
| Stroke.

(** The off-screen canvas when [toDataURL] is called: its pixel size and the
    calls drawn on it, in order.  [toDataURL('image/png')] encodes exactly
    this canvas, so the argument of [onMaskReady] is modelled by it. *)
Record Mask : Type := {
  mask_width : Z;
  mask_height : Z;
  mask_calls : list CanvasCall
}.

(** The body of [paths.forEach]'s callback.  [path.points[0]] is [undefined]
    for an empty array and reading [.x] of it throws. *)
Definition strokePath (path : Path) : Completion (list CanvasCall) :=
  match points path with
  | [] => TypeError
  | p0 :: rest =>
      Normal ([BeginPath; SetLineWidth (size path); MoveTo (x p0) (y p0)]
              ++ map (fun p => LineTo (x p) (y p)) rest
              ++ [Stroke])
  end.

Fixpoint forEachPath (ps : list Path) : Completion (list CanvasCall) :=
  match ps with
  | [] => Normal []
  | path :: rest =>
      calls <- strokePath path ;;
      more <- forEachPath rest ;;
      Normal (calls ++ more)
  end.

(** [generateMask]: [Normal (Some m)] when [onMaskReady] is called with [m],
    [Normal None] when it returns without calling it.  [getContext2d] tells
    whether [canvas.getContext('2d')] gives a context. *)
Definition generateMask (getContext2d : bool) (st : State)
    : Completion (option Mask) :=
  let w := width (imgDimensions st) in
  let h := height (imgDimensions st) in
  if negb getContext2d then Normal None
  else
    strokes <- forEachPath (paths st) ;;
    Normal (Some {| mask_width := w;
                    mask_height := h;
                    mask_calls :=
                      [SetFillStyle "black"; FillRect 0 0 w h;
                       SetLineCap "round"; SetLineJoin "round";
                       SetStrokeStyle "white"] ++ strokes |}).

(** The body of the effect with dependencies [[triggerExport]]. *)
Definition exportEffect (props : Props) (getContext2d : bool) (st : State)
    : Completion (option Mask) :=
  if triggerExport props =? 0 then Normal None
  else generateMask getContext2d st.

(** *** The component as a transition system *)

Inductive Event : Type :=
| ImgOnload (containerRef : option Container) (innerHeight : Z)
            (imgWidth imgHeight : Z)
| WindowResize (containerRef : option Container) (innerHeight : Z)
| PointerDown (canvasRef : option Canvas) (e : PointerEvt)
| PointerMove (canvasRef : option Canvas) (e : PointerEvt)
| PointerUp
| UndoClick
| ClearClick.

(** The handler bound to each event, run with the props of the current
    render.  A click on a button that is not rendered does not happen. *)
Definition step (props : Props) (ev : Event) (st : State) : State :=
  match ev with
  | ImgOnload c ih w h => imgOnload c ih w h st
  | WindowResize c ih => handleResize c ih st
  | PointerDown cv e => startDrawing props cv e st
  | PointerMove cv e => draw props cv e st
  | PointerUp => stopDrawing props st
  | UndoClick => if toolbarVisible props st then undoLast st else st
  | ClearClick => if toolbarVisible props st then clearAll st else st
  end.

Inductive reachable : State -> Prop :=
| reachable_init : reachable initialState
| reachable_step : forall props ev st,
    reachable st -> reachable (step props ev st).

(** One drawing gesture: pointer down, any number of moves, pointer up
    (or leave, or touch end), each with the props and canvas of its time. *)
Record Gesture : Type := {
  down_props : Props;
  down_canvas : option Canvas;
  down_evt : PointerEvt;
  moves : list (Props * option Canvas * PointerEvt);
  up_props : Props
}.

Definition runMoves (ms : list (Props * option Canvas * PointerEvt))
    (st : State) : State :=
  fold_left (fun s m => let '(p, cv, e) := m in draw p cv e s) ms st.

Definition runGesture (g : Gesture) (st : State) : State :=
  stopDrawing (up_props g)
    (runMoves (moves g)
       (startDrawing (down_props g) (down_canvas g) (down_evt g) st)).

(** The gesture begins a stroke: drawing is enabled and the mapper gives a
    point for the pointer-down event. *)
Definition beginsStroke (g : Gesture) : bool :=
  negb (isProcessing (down_props g)) &&
  match getCoordinates (down_canvas g) (down_evt g) with
  | Some _ => true
  | None => false
  end.


(** *** The contracts as the specification words them *)

(** Fit-to-container contract: [scale = min(containerW/imgW, containerH/imgH, 1)]. *)
Definition scaleContract (containerW containerH imgW imgH : num) : num :=
  min3 (div containerW imgW) (div containerH imgH) (of_Z 1).

(** The height the contract is applied to: the measured one, or the
    fraction of the viewport height when the measured one is zero. *)
Definition effectiveHeight (c : Container) (innerHeight : Z) : num :=
  if clientHeight c =? 0 then mul (of_Z innerHeight) zero_point_six
  else of_Z (clientHeight c).


End CanvasEditor.

(* ================================================================== *)
(** ** App.tsx: the export counter and the mounted editor *)

Module App.
Import JsNum CanvasEditor.

(** The part of [App] around a mounted [CanvasEditor]: the counter
    [exportTrigger], the editor's state, the value of the dependency
    [triggerExport] at the last commit ([None] before the first one) and the
    arguments [onMaskReady] has been called with, oldest first.
    [handleReset] puts the counter back to 0 together with [imageSrc] to
    null, which unmounts the editor: a session ends there, and the next
    image gets a new one. *)
Record Session : Type := {
  exportTrigger : Z;
  editor : State;
  lastDeps : option Z;
  maskReadyCalls : list Mask
}.

(** [useState<number>(0)] and a freshly created editor, not yet committed. *)
Definition created : Session :=
  {| exportTrigger := 0; editor := initialState;
     lastDeps := None; maskReadyCalls := [] |}.

(** React runs an effect after the first render and after every render in
    which one of its dependencies differs from the previous render's. *)
Definition depsChanged (s : Session) : bool :=
  match lastDeps s with
  | None => true
  | Some d => negb (d =? exportTrigger s)
  end.

(** Commit of a render of the editor: the export effect runs when its
    dependency changed. *)
Definition commit (getContext2d : bool) (brush : Z) (processing : bool)
    (s : Session) : Completion Session :=
  if depsChanged s then
    r <- exportEffect {| brushSize := brush; isProcessing := processing;
                         triggerExport := exportTrigger s |}
                      getContext2d (editor s) ;;
    Normal {| exportTrigger := exportTrigger s;
              editor := editor s;
              lastDeps := Some (exportTrigger s);
              maskReadyCalls :=
                match r with
                | Some m => maskReadyCalls s ++ [m]
                | None => maskReadyCalls s
                end |}
  else Normal s.

Inductive Action : Type :=
| HandleStartProcessing
| EditorEvent (ev : Event)
| Rerender.

(** What an action does to the state before the render it causes.
    [handleStartProcessing] is [setExportTrigger(prev => prev + 1)]. *)
Definition dispatch (brush : Z) (processing : bool) (a : Action) (s : Session)
    : Session :=
  match a with
  | HandleStartProcessing =>
      {| exportTrigger := exportTrigger s + 1; editor := editor s;
         lastDeps := lastDeps s; maskReadyCalls := maskReadyCalls s |}
  | EditorEvent ev =>
      {| exportTrigger := exportTrigger s;
         editor := step {| brushSize := brush; isProcessing := processing;
                           triggerExport := exportTrigger s |} ev (editor s);
         lastDeps := lastDeps s; maskReadyCalls := maskReadyCalls s |}
  | Rerender => s
  end.

(** An action with the other props of its render: brush size, processing
    flag, and whether a 2D context can be had. *)
Record Turn : Type := {
  turn_brush : Z;
  turn_processing : bool;
  turn_context2d : bool;
  turn_action : Action
}.

Definition turn (t : Turn) (s : Session) : Completion Session :=
  commit (turn_context2d t) (turn_brush t) (turn_processing t)
    (dispatch (turn_brush t) (turn_processing t) (turn_action t) s).

Fixpoint run (ts : list Turn) (s : Session) : Completion Session :=
  match ts with
  | [] => Normal s
  | t :: rest => s' <- turn t s ;; run rest s'
  end.

(** The first render and commit of the editor. *)
Definition mount (getContext2d : bool) (brush : Z) (processing : bool)
    : Completion Session :=
  commit getContext2d brush processing created.

Definition isStartProcessing (t : Turn) : bool :=
  match turn_action t with
  | HandleStartProcessing => true
  | _ => false
  end.

Definition increments (ts : list Turn) : nat :=
  List.length (filter isStartProcessing ts).

End App.

(* ================================================================== *)
(** ** Invariants and sample inputs *)

Module Scenario.
Import JsNum CanvasEditor App.

(** A completed stroke with at least one point. *)
Definition nonEmptyPath (p : Path) : Prop := points p <> [].

(** What holds of a session between turns. *)
Definition committed (s : Session) : Prop :=
  reachable (editor s)
  /\ lastDeps s = Some (exportTrigger s)
  /\ 0 <= exportTrigger s.

(** The number of [onMaskReady] calls a turn makes. *)
Definition fires (t : Turn) : nat :=
  if isStartProcessing t && turn_context2d t then 1%nat else 0%nat.

(** What a turn adds to the counter. *)
Definition bump (t : Turn) : Z := if isStartProcessing t then 1 else 0.

(** Splits a conjunction of facts about a session and closes each part by
    evaluation of the record fields. *)
Ltac session_facts :=
  repeat split; cbn;
  first [ assumption
        | apply reachable_init
        | apply reachable_step; assumption
        | lia
        | rewrite ?app_nil_r; reflexivity ].

(** An 800x600 canvas laid out at scale 1/2. *)
Definition halfScaleCanvas : Canvas :=
  {| canvas_width := 800; canvas_height := 600;
     boundingClientRect :=
       {| rect_left := Fin 10; rect_top := Fin 20;
          rect_width := Fin 400; rect_height := Fin 300 |} |}.

(** A tap, with the brush size of the render at pointer down and of the
    render at pointer up. *)
Definition tap (sizeDown sizeUp : Z) : Gesture :=
  {| down_props := {| brushSize := sizeDown; isProcessing := false;
                      triggerExport := 0 |};
     down_canvas := Some halfScaleCanvas;
     down_evt := Mouse (Fin 110) (Fin 70);
     moves := [];
     up_props := {| brushSize := sizeUp; isProcessing := false;
                    triggerExport := 0 |} |}.

Definition drawingProps : Props :=
  {| brushSize := 30; isProcessing := false; triggerExport := 0 |}.

Definition exportProps : Props :=
  {| brushSize := 30; isProcessing := false; triggerExport := 1 |}.

Definition sampleEvents : list Event :=
  [ImgOnload (Some {| clientWidth := 400; clientHeight := 300 |}) 500 800 600;
   PointerDown (Some halfScaleCanvas) (Mouse (Fin 110) (Fin 70));
   PointerMove (Some halfScaleCanvas) (Mouse (Fin 160) (Fin 70));
   PointerUp].

(** The 800x600 image loaded and one stroke from (200,100) to (300,100). *)
Definition drawnState : State :=
  step drawingProps PointerUp
    (step drawingProps
       (PointerMove (Some halfScaleCanvas) (Mouse (Fin 160) (Fin 70)))
       (step drawingProps
          (PointerDown (Some halfScaleCanvas) (Mouse (Fin 110) (Fin 70)))
          (step drawingProps
             (ImgOnload (Some {| clientWidth := 400; clientHeight := 300 |})
                        500 800 600)
             initialState))).

Definition okTurn (a : Action) : Turn :=
  {| turn_brush := 30; turn_processing := false; turn_context2d := true;
     turn_action := a |}.

(** Load and draw, export, re-render, export again. *)
Definition sampleTurns : list Turn :=
  map okTurn (map EditorEvent sampleEvents
              ++ [HandleStartProcessing; Rerender; HandleStartProcessing]).

End Scenario.

(* ================================================================== *)
(** ** components/CanvasEditor.tsx: the live overlay *)

Module Compositor.
Import JsNum CanvasEditor.

(** The highlight colour of the overlay: red, 50% opacity. *)
Definition highlight : string := "rgba(239, 68, 68, 0.5)".

(** The helper [drawPath] of [renderPaths]; it returns at once on an empty
    point list. *)
Definition drawPath (pathPoints : list Point) (size : Z) (color : string)
    : list CanvasCall :=
  match pathPoints with
  | [] => []
  | p0 :: rest =>
      [BeginPath; SetLineWidth size; SetStrokeStyle color;
       MoveTo (x p0) (y p0)]
      ++ map (fun p => LineTo (x p) (y p)) rest
      ++ [Stroke]
  end.

(** [renderPaths]: the saved paths with their own size, then the path in
    progress with the brush size of the current render. *)
Definition renderPaths (props : Props) (st : State) : list CanvasCall :=
  [SetLineCap "round"; SetLineJoin "round"]
  ++ flat_map (fun path => drawPath (points path) (size path) highlight)
              (paths st)
  ++ (if (0 <? List.length (currentPath st))%nat
      then drawPath (currentPath st) (brushSize props) highlight
      else []).

(** What a sequence of 2D-context calls strokes: [beginPath] empties the
    current path, [moveTo] and [lineTo] add a point to it, [lineWidth] stays
    as last set, and every [stroke] paints the current path at the current
    width.  [w] and [pts] are the width and path before the calls. *)
Fixpoint strokesOf (w : Z) (pts : list Point) (calls : list CanvasCall)
    : list Path :=
  match calls with
  | [] => []
  | BeginPath :: rest => strokesOf w [] rest
  | SetLineWidth w' :: rest => strokesOf w' pts rest
  | MoveTo px py :: rest => strokesOf w (pts ++ [{| x := px; y := py |}]) rest
  | LineTo px py :: rest => strokesOf w (pts ++ [{| x := px; y := py |}]) rest
  | Stroke :: rest => {| points := pts; size := w |} :: strokesOf w pts rest
  | _ :: rest => strokesOf w pts rest
  end.

(** A fresh 2D context: [lineWidth] is 1 and the path is empty. *)
Definition strokedPaths (calls : list CanvasCall) : list Path :=
  strokesOf 1 [] calls.

(** The stroke in progress as the overlay shows it. *)
Definition strokeInProgress (props : Props) (st : State) : list Path :=
  match currentPath st with
  | [] => []
  | pts => [{| points := pts; size := brushSize props |}]
  end.

Definition hasPoints (p : Path) : bool :=
  match points p with [] => false | _ => true end.

End Compositor.

(* ================================================================== *)
(** ** services/geminiService.ts *)

Module GeminiService.

Open Scope string_scope.

(** [s.split(',')] *)
Fixpoint split_comma (s : string) : list string :=
  match s with
  | EmptyString => [EmptyString]
  | String c rest =>
      if Ascii.eqb c ","%char then EmptyString :: split_comma rest
      else match split_comma rest with
           | seg :: segs => String c seg :: segs
           | [] => [String c EmptyString]
           end
  end.

(** [base64.split(',')[1] || base64]: the second segment unless it is
    missing or empty. *)
Definition cleanBase64 (base64 : string) : string :=
  match nth_error (split_comma base64) 1 with
  | Some EmptyString => base64
  | Some seg => seg
  | None => base64
  end.

Definition model : string := "gemini-2.5-flash-image".

Definition instructions : string :=
  "Instructions: You are an expert image editing AI. Your task is to remove specific objects or watermarks from the first image provided. " ++
  "I have provided a second image which is a black and white MASK. " ++
  "The WHITE areas in the second image indicate exactly what needs to be removed from the first image. " ++
  "1. Analyze the first image (Source). " ++
  "2. Analyze the second image (Mask). " ++
  "3. Remove the content in the Source image that corresponds to the White areas in the Mask. " ++
  "4. Inpaint the removed areas seamlessly to match the surrounding background texture, lighting, and details. " ++
  "5. DO NOT change any part of the image where the mask is Black. Preserve the original format and quality as much as possible. " ++
  "6. Return ONLY the edited image.".

(** A part of a request or of a response. *)
Record InlineData : Type := { mimeType : option string; data : option string }.

Record Part : Type := { text : option string; inlineData : option InlineData }.

Record Request : Type := { request_model : string; request_parts : list Part }.

Record Content : Type := { parts : option (list Part) }.

Record Candidate : Type := { content : option Content }.

Record GenerateContentResponse : Type := {
  candidates : option (list Candidate)
}.

(** A thrown value, by what the handlers read of it: [null] or
    [undefined]; a value whose [message] is a string, as an [Error] has; a
    value whose [message] is [undefined] or another falsy value that is not a
    string; a value whose [message] is truthy, is not a string and has no
    method [includes]. *)
Inductive Thrown : Type :=
| Nullish
| WithMessage (message : string)
| WithoutMessage
| WithOddMessage.

(** A settled promise: resolved with a value, or rejected with a thrown
    value. *)
Inductive Settled (A : Type) : Type :=
| Resolved (a : A)
| Rejected (error : Thrown).
Arguments Resolved {A} a.
Arguments Rejected {A} error.

Definition truthyString (s : option string) : option string :=
  match s with
  | Some EmptyString => None
  | other => other
  end.

(** [response.candidates?.[0]?.content?.parts] *)
Definition firstCandidateParts (response : GenerateContentResponse)
    : option (list Part) :=
  match candidates response with
  | Some (c :: _) =>
      match content c with
      | Some ct => parts ct
      | None => None
      end
  | _ => None
  end.

(** The loop over the parts: the first one with a non-empty
    [inlineData.data] ends it. *)
Fixpoint firstImage (ps : list Part) : option string :=
  match ps with
  | [] => None
  | part :: rest =>
      match inlineData part with
      | Some inline =>
          match truthyString (data inline) with
          | Some d => Some ("data:image/png;base64," ++ d)
          | None => firstImage rest
          end
      | None => firstImage rest
      end
  end.

Definition noImageMessage : string :=
  "Gemini generated a response but no image was found. The request might have been blocked by safety filters.".

(** [response.candidates?.[0]?.content?.parts?.[0]?.text], taken when
    truthy. *)
Definition textResponse (response : GenerateContentResponse) : string :=
  match firstCandidateParts response with
  | Some (p :: _) =>
      match truthyString (text p) with
      | Some t => t
      | None => EmptyString
      end
  | _ => EmptyString
  end.

(** From the response to the returned data URL or the thrown [Error]. *)
Definition extractImage (response : GenerateContentResponse) : Settled string :=
  match firstImage (match firstCandidateParts response with
                    | Some ps => ps
                    | None => []
                    end) with
  | Some url => Resolved url
  | None =>
      Rejected (WithMessage (match textResponse response with
                             | EmptyString => noImageMessage
                             | t => t
                             end))
  end.

Definition buildRequest (originalBase64 maskBase64 mimeType : string)
    : Request :=
  {| request_model := model;
     request_parts :=
       [{| text := Some instructions; inlineData := None |};
        {| text := None;
           inlineData := Some {| mimeType := Some mimeType;
                                 data := Some (cleanBase64 originalBase64) |} |};
        {| text := None;
           inlineData := Some {| mimeType := Some "image/png";
                                 data := Some (cleanBase64 maskBase64) |} |}] |}.

(** [removeWatermark], over the call [ai.models.generateContent]; the
    [catch] logs and throws the error again. *)
Definition removeWatermark
    (generateContent : Request -> Settled GenerateContentResponse)
    (originalBase64 maskBase64 mimeType : string) : Settled string :=
  match generateContent (buildRequest originalBase64 maskBase64 mimeType) with
  | Resolved response => extractImage response
  | Rejected error => Rejected error
  end.

(** No comma in the string. *)
Fixpoint commaFree (s : string) : bool :=
  match s with
  | EmptyString => true
  | String c rest => negb (Ascii.eqb c ","%char) && commaFree rest
  end.

End GeminiService.

(* ================================================================== *)
(** ** App.tsx: the handlers *)

Module AppHandlers.
Import GeminiService.

Open Scope string_scope.

(** The [useState] cells of [App]. *)
Record AppState : Type := {
  imageSrc : option string;
  originalMimeType : string;
  brushSize : Z;
  isProcessing : bool;
  processedImage : option string;
  exportTrigger : Z;
  errorMsg : option string
}.

Definition initialApp : AppState :=
  {| imageSrc := None; originalMimeType := "image/png"; brushSize := 30;
     isProcessing := false; processedImage := None; exportTrigger := 0;
     errorMsg := None |}.

(** [handleFileChange] up to the start of the read: the MIME type of the
    chosen file is stored; nothing happens without a file. *)
Definition handleFileChange (fileType : option string) (s : AppState)
    : AppState :=
  match fileType with
  | None => s
  | Some t =>
      {| imageSrc := imageSrc s; originalMimeType := t;
         brushSize := brushSize s; isProcessing := isProcessing s;
         processedImage := processedImage s;
         exportTrigger := exportTrigger s; errorMsg := errorMsg s |}
  end.

(** [reader.onload]; [result] is [None] when it is not a string. *)
Definition readerOnload (result : option string) (s : AppState) : AppState :=
  match result with
  | None => s
  | Some url =>
      {| imageSrc := Some url; originalMimeType := originalMimeType s;
         brushSize := brushSize s; isProcessing := isProcessing s;
         processedImage := None;
         exportTrigger := exportTrigger s; errorMsg := None |}
  end.

Definition handleStartProcessing (s : AppState) : AppState :=
  {| imageSrc := imageSrc s; originalMimeType := originalMimeType s;
     brushSize := brushSize s; isProcessing := isProcessing s;
     processedImage := processedImage s;
     exportTrigger := exportTrigger s + 1; errorMsg := errorMsg s |}.

Definition handleReset (s : AppState) : AppState :=
  {| imageSrc := None; originalMimeType := originalMimeType s;
     brushSize := brushSize s; isProcessing := isProcessing s;
     processedImage := None; exportTrigger := 0; errorMsg := None |}.

(** [message.includes(needle)] *)
Definition includes (needle message : string) : bool :=
  match index 0 needle message with
  | Some _ => true
  | None => false
  end.

(** The message chosen for a truthy string [error.message]. *)
Definition classify (m : string) : string :=
  if includes "403" m || includes "API key" m then
    "API Key 无效或权限不足。请检查 Key 是否正确。"
  else if includes "429" m || includes "quota" m then
    "API 配额已用完 (429)。请稍后重试。"
  else if includes "500" m || includes "503" m then
    "服务器繁忙，请稍后重试。"
  else "处理失败: " ++ m.

Definition defaultErrorText : string := "处理失败，请重试。".

(** The [catch] block up to [setErrorMsg(msg)]: the message it sets, or
    [None] when it throws before setting one.  Reading [error.message] of
    [null] or [undefined] throws, and so does calling [includes] on a
    message that has no such method. *)
Definition errorText (error : Thrown) : option string :=
  match error with
  | Nullish => None
  | WithOddMessage => None
  | WithoutMessage => Some defaultErrorText
  | WithMessage EmptyString => Some defaultErrorText
  | WithMessage m => Some (classify m)
  end.

(** [handleMaskReady] before the [await]: [setIsProcessing(true)] and
    [setErrorMsg(null)]. *)
Definition beginProcessing (s : AppState) : AppState :=
  {| imageSrc := imageSrc s; originalMimeType := originalMimeType s;
     brushSize := brushSize s; isProcessing := true;
     processedImage := processedImage s;
     exportTrigger := exportTrigger s; errorMsg := None |}.

(** [handleMaskReady] after the [await]: the [try] or the [catch] branch,
    then [finally], which runs also when the [catch] block throws. *)
Definition settleProcessing (outcome : Settled string) (s : AppState)
    : AppState :=
  {| imageSrc := imageSrc s; originalMimeType := originalMimeType s;
     brushSize := brushSize s; isProcessing := false;
     processedImage :=
       match outcome with
       | Resolved resultImage => Some resultImage
       | Rejected _ => processedImage s
       end;
     exportTrigger := exportTrigger s;
     errorMsg :=
       match outcome with
       | Resolved _ => errorMsg s
       | Rejected error =>
           match errorText error with
           | Some msg => Some msg
           | None => errorMsg s
           end
       end |}.

(** [handleMaskReady], with no other handler run during the [await]. *)
Definition handleMaskReady
    (generateContent : Request -> Settled GenerateContentResponse)
    (maskBase64 : string) (s : AppState) : AppState :=
  match truthyString (imageSrc s) with
  | None => s
  | Some src =>
      settleProcessing
        (removeWatermark generateContent src maskBase64 (originalMimeType s))
        (beginProcessing s)
  end.

(** What [App] renders in its main area, by the truthiness of [imageSrc]
    and [processedImage]. *)
Inductive View : Type := UploadView | EditorView | ResultView.

Definition view (s : AppState) : View :=
  match truthyString (imageSrc s), truthyString (processedImage s) with
  | None, _ => UploadView
  | Some _, Some _ => ResultView
  | Some _, None => EditorView
  end.

End AppHandlers.

(* ================================================================== *)
(** ** Sample responses and application states *)

Module ServiceScenario.
Import GeminiService AppHandlers.

Open Scope string_scope.

(** A response whose first part is text and whose second part holds an
    image. *)
Definition imageResponse : GenerateContentResponse :=
  {| candidates :=
       Some [{| content :=
                  Some {| parts :=
                            Some [{| text := Some "Here is the edited image.";
                                     inlineData := None |};
                                  {| text := None;
                                     inlineData :=
                                       Some {| mimeType := Some "image/png";
                                               data := Some "iVBORw0KGgo=" |} |}] |} |}] |}.

(** A response that holds text only. *)
Definition refusalResponse : GenerateContentResponse :=
  {| candidates :=
       Some [{| content :=
                  Some {| parts :=
                            Some [{| text := Some "I cannot edit this image.";
                                     inlineData := None |}] |} |}] |}.

Definition respondWith (response : GenerateContentResponse)
    : Request -> Settled GenerateContentResponse :=
  fun _ => Resolved response.

Definition failWith (message : string)
    : Request -> Settled GenerateContentResponse :=
  fun _ => Rejected (WithMessage message).

(** An image loaded and the start button clicked once. *)
Definition editingApp : AppState :=
  handleStartProcessing
    (readerOnload (Some "data:image/jpeg;base64,/9j/4AAQSkZJRg==")
       (handleFileChange (Some "image/jpeg") initialApp)).

End ServiceScenario.

(* ================================================================== *)
(** ** States outside the reachable ones *)

Module EdgeStates.
Import JsNum CanvasEditor.

(** A state holding a stored path without points, which no handler
    produces. *)
Definition pointlessPathState : State :=
  setPaths (fun _ => [{| points := []; size := 30 |}]) initialState.

End EdgeStates.

(* ================================================================== *)
(** ** The source image and the response, as the properties speak of them *)

Module ImageLoader.
Import JsNum CanvasEditor.

(** The [Image] the loader effect creates from [imageSrc]: once decoded, its
    [width] and [height] are the native size of the source image. *)
Record HTMLImage : Type := { img_width : Z; img_height : Z }.

(** The [onload] event of that image. *)
Definition onloadOf (img : HTMLImage) (containerRef : option Container)
    (innerHeight : Z) : Event :=
  ImgOnload containerRef innerHeight (img_width img) (img_height img).

Definition isImgOnload (ev : Event) : bool :=
  match ev with
  | ImgOnload _ _ _ _ => true
  | _ => false
  end.

(** The states of an editor mounted on the source image [img]; the flag
    tells whether [img.onload] has run.  The only load events are those of
    [img]. *)
Inductive showing (img : HTMLImage) : bool -> State -> Prop :=
| showing_mounted : showing img false initialState
| showing_loaded : forall b props c ih st,
    showing img b st ->
    showing img true (step props (onloadOf img c ih) st)
| showing_event : forall b props ev st,
    showing img b st -> isImgOnload ev = false ->
    showing img b (step props ev st).

End ImageLoader.

Module ServiceSpec.
Import GeminiService.

(** Part [p] holds the image data [d]: a non-empty [inlineData.data]. *)
Definition holdsImage (p : Part) (d : string) : Prop :=
  exists inline,
    inlineData p = Some inline /\ data inline = Some d /\ d <> EmptyString.

Definition holdsNoImage (p : Part) : Prop := forall d, ~ holdsImage p d.

(** The parts the loop goes over: those of the content of the first
    candidate, and none when a link of that chain is missing. *)
Inductive loopParts (response : GenerateContentResponse) : list Part -> Prop :=
| parts_present : forall c cs ct ps,
    candidates response = Some (c :: cs) -> content c = Some ct ->
    parts ct = Some ps -> loopParts response ps
| parts_no_candidates :
    candidates response = None -> loopParts response []
| parts_empty_candidates :
    candidates response = Some [] -> loopParts response []
| parts_no_content : forall c cs,
    candidates response = Some (c :: cs) -> content c = None ->
    loopParts response []
| parts_no_parts : forall c cs ct,
    candidates response = Some (c :: cs) -> content c = Some ct ->
    parts ct = None -> loopParts response [].

(** The message of the error thrown for a response without image: the text
    of the first part when it has a non-empty one, the fixed message
    otherwise. *)
Inductive refusalText : list Part -> string -> Prop :=
| refusal_text : forall p rest t,
    text p = Some t -> t <> EmptyString -> refusalText (p :: rest) t
| refusal_no_part : refusalText [] noImageMessage
| refusal_no_text : forall p rest,
    text p = None -> refusalText (p :: rest) noImageMessage
| refusal_empty_text : forall p rest,
    text p = Some EmptyString -> refusalText (p :: rest) noImageMessage.

End ServiceSpec.

(* ================================================================== *)
(** ** Properties of the number model *)

Section NumFacts.
Import JsNum.
Open Scope Q_scope.

Lemma ltb_Fin (p q : Q) : ltb (Fin p) (Fin q) = true <-> p < q.
Proof.
  unfold ltb. rewrite Qlt_alt.
  destruct (p ?= q); split; congruence.
Qed.

Lemma ltb_Fin_false (p q : Q) : ltb (Fin p) (Fin q) = false <-> q <= p.
Proof.
  rewrite Qle_alt. unfold ltb. rewrite <- (Qcompare_antisym p q).
  destruct (p ?= q); simpl; split; congruence.
Qed.

Lemma min2_Fin (p q : Q) :
  min2 (Fin p) (Fin q) = Fin (if ltb (Fin q) (Fin p) then q else p).
Proof.
  unfold min2. destruct (ltb (Fin q) (Fin p)); reflexivity.
Qed.

(** [Math.min(a, q)] is never greater than a finite [q]. *)
Lemma min2_not_above (a : num) (q : Q) : gtb (min2 a (Fin q)) (Fin q) = false.
Proof.
  unfold gtb. destruct a as [p| | |]; try reflexivity.
  - rewrite min2_Fin. destruct (ltb (Fin q) (Fin p)) eqn:E.
    + apply ltb_Fin_false. apply Qle_refl.
    + exact E.
  - cbn. apply ltb_Fin_false. apply Qle_refl.
Qed.

Lemma div_Fin (p q : Q) : ~ q == 0 -> div (Fin p) (Fin q) = Fin (p / q).
Proof.
  intros Hq. unfold div.
  destruct (q ?= 0) eqn:E; try reflexivity.
  apply Qeq_alt in E. contradiction.
Qed.

Lemma inject_Z_pos (z : Z) : (0 < z)%Z -> 0 < inject_Z z.
Proof.
  intros Hz. change 0 with (inject_Z 0). rewrite <- Zlt_Qlt. exact Hz.
Qed.

Lemma Qdiv_pos (p q : Q) : 0 < p -> 0 < q -> 0 < p / q.
Proof.
  intros Hp Hq. unfold Qdiv.
  apply Qmult_lt_0_compat; [exact Hp | apply Qinv_lt_0_compat; exact Hq].
Qed.

Lemma truthy_of_Z (z : Z) : truthy (of_Z z) = negb (z =? 0)%Z.
Proof.
  unfold truthy, of_Z.
  destruct (Z.eqb_spec z 0) as [->|Hz]; [reflexivity|].
  destruct (inject_Z z ?= 0) eqn:E; try reflexivity.
  apply Qeq_alt in E. apply (inject_Z_injective z 0%Z) in E. contradiction.
Qed.

End NumFacts.

Section NumOrder.
Import JsNum.
Open Scope Q_scope.

Lemma min2_Fin_le (p q : Q) :
  exists m, min2 (Fin p) (Fin q) = Fin m
            /\ m <= p /\ m <= q /\ (m = p \/ m = q).
Proof.
  rewrite min2_Fin. destruct (ltb (Fin q) (Fin p)) eqn:E.
  - apply ltb_Fin in E. exists q. repeat split; auto.
    + apply Qlt_le_weak. exact E.
    + apply Qle_refl.
  - apply ltb_Fin_false in E. exists p. repeat split; auto. apply Qle_refl.
Qed.

Lemma ltb_irrefl (a : num) : ltb a a = false.
Proof.
  destruct a as [p| | |]; try reflexivity.
  apply ltb_Fin_false. apply Qle_refl.
Qed.

(** "Not less than" is transitive away from NaN. *)
Lemma not_ltb_trans (a b c : num) :
  b <> NaN -> ltb b a = false -> ltb c b = false -> ltb c a = false.
Proof.
  intros Hb H1 H2.
  destruct a as [p| | |], b as [q| | |], c as [r| | |];
    try reflexivity; try discriminate; try contradiction.
  apply ltb_Fin_false in H1. apply ltb_Fin_false in H2.
  apply ltb_Fin_false. apply (Qle_trans _ q); assumption.
Qed.

Lemma min2_NaN (a b : num) : a = NaN \/ b = NaN -> min2 a b = NaN.
Proof.
  intros [-> | ->]; [reflexivity|]. destruct a; reflexivity.
Qed.

(** [Math.min(a, b)] away from NaN: one of the two, and neither is less. *)
Lemma min2_least (a b : num) :
  a <> NaN -> b <> NaN ->
  min2 a b <> NaN
  /\ (min2 a b = a \/ min2 a b = b)
  /\ ltb a (min2 a b) = false
  /\ ltb b (min2 a b) = false.
Proof.
  intros Ha Hb.
  assert (E : min2 a b = if ltb b a then b else a)
    by (destruct a, b; try contradiction; reflexivity).
  rewrite E. destruct (ltb b a) eqn:L.
  - split; [exact Hb|]. split; [right; reflexivity|].
    split; [|apply ltb_irrefl].
    destruct a as [p| | |], b as [q| | |];
      try reflexivity; try discriminate; try contradiction.
    apply ltb_Fin in L. apply ltb_Fin_false. apply Qlt_le_weak. exact L.
  - split; [exact Ha|]. split; [left; reflexivity|].
    split; [apply ltb_irrefl | exact L].
Qed.

(** [Math.min(a, b, c)] away from NaN: one of the three, and none is
    less. *)
Lemma min3_least (a b c : num) :
  a <> NaN -> b <> NaN -> c <> NaN ->
  (min3 a b c = a \/ min3 a b c = b \/ min3 a b c = c)
  /\ ltb a (min3 a b c) = false
  /\ ltb b (min3 a b c) = false
  /\ ltb c (min3 a b c) = false.
Proof.
  intros Ha Hb Hc. unfold min3.
  destruct (min2_least a b Ha Hb) as (Hm & Em & La & Lb).
  destruct (min2_least (min2 a b) c Hm Hc) as (_ & Er & Lm & Lc).
  split.
  - destruct Er as [-> | ->]; [destruct Em as [-> | ->]|]; auto.
  - split; [|split; [|exact Lc]].
    + apply (not_ltb_trans _ (min2 a b)); assumption.
    + apply (not_ltb_trans _ (min2 a b)); assumption.
Qed.

End NumOrder.

(* ================================================================== *)
(** ** Fit-to-container scaler *)

Section Scaler.
Import JsNum CanvasEditor.

Lemma newScale_contract (c : Container) (innerHeight imgW imgH : Z) :
  newScale c innerHeight imgW imgH =
  scaleContract (of_Z (clientWidth c)) (effectiveHeight c innerHeight)
                (of_Z imgW) (of_Z imgH).
Proof.
  unfold newScale, scaleContract, effectiveHeight, or_else.
  rewrite truthy_of_Z. destruct (clientHeight c =? 0); reflexivity.
Qed.

Lemma newScale_not_above_one (c : Container) (innerHeight imgW imgH : Z) :
  gtb (newScale c innerHeight imgW imgH) (of_Z 1) = false.
Proof.
  unfold newScale, min3, of_Z at 5. apply min2_not_above.
Qed.

(** C2, as the code has it. For every container and image size the scale
    set is [Math.min(scaleW, scaleH, 1)] of the two ratios, the height being
    the measured one or, when that is zero, 0.6 times the viewport height: it
    is NaN when a ratio is, and otherwise one of the three numbers with none
    of them less; it is never greater than 1; for an image of positive size
    it is the least of the rationals [cw/iw], [h/ih] and 1; and with a zero
    measured height it is greater than 0 provided the container width, the
    viewport height and the image size are positive. *)
Theorem fit_scale_min_of_ratios (c : Container) (innerHeight imgW imgH : Z)
    (st : State) :
  let s := scale (fitImageToContainer (Some c) innerHeight imgW imgH st) in
  let containerH :=
    if clientHeight c =? 0 then (inject_Z innerHeight * (6 # 10))%Q
    else inject_Z (clientHeight c) in
  let scaleW := div (of_Z (clientWidth c)) (of_Z imgW) in
  let scaleH := div (Fin containerH) (of_Z imgH) in
  (scaleW = NaN \/ scaleH = NaN -> s = NaN)
  /\ (scaleW <> NaN -> scaleH <> NaN ->
      (s = scaleW \/ s = scaleH \/ s = of_Z 1)
      /\ ltb scaleW s = false /\ ltb scaleH s = false
      /\ ltb (of_Z 1) s = false)
  /\ gtb s (of_Z 1) = false
  /\ (0 < imgW -> 0 < imgH ->
      exists r,
        s = Fin r
        /\ (r <= inject_Z (clientWidth c) / inject_Z imgW)%Q
        /\ (r <= containerH / inject_Z imgH)%Q
        /\ (r <= 1)%Q
        /\ (r == inject_Z (clientWidth c) / inject_Z imgW
            \/ r == containerH / inject_Z imgH \/ r == 1)%Q)
  /\ (clientHeight c = 0 -> 0 < clientWidth c -> 0 < innerHeight ->
      0 < imgW -> 0 < imgH ->
      exists r, s = Fin r /\ (0 < r)%Q).
Proof.
  intros s containerH scaleW scaleH.
  assert (E : s = min3 scaleW scaleH (of_Z 1)).
  { unfold s, scaleW, scaleH, containerH. cbn [fitImageToContainer setScale scale].
    unfold newScale, or_else. rewrite truthy_of_Z.
    destruct (clientHeight c =? 0); reflexivity. }
  assert (P : 0 < imgW -> 0 < imgH ->
              exists r,
                s = Fin r
                /\ (r <= inject_Z (clientWidth c) / inject_Z imgW)%Q
                /\ (r <= containerH / inject_Z imgH)%Q
                /\ (r <= 1)%Q
                /\ (r = inject_Z (clientWidth c) / inject_Z imgW
                    \/ r = containerH / inject_Z imgH \/ r = inject_Z 1)%Q).
  { intros Hw Hh.
    pose proof (inject_Z_pos imgW Hw) as Pw.
    pose proof (inject_Z_pos imgH Hh) as Ph.
    rewrite E. unfold scaleW, scaleH, min3, of_Z.
    rewrite !div_Fin
      by (intros Z; rewrite Z in *; eapply Qlt_irrefl; eassumption).
    destruct (min2_Fin_le (inject_Z (clientWidth c) / inject_Z imgW)
                          (containerH / inject_Z imgH))
      as (m & -> & M1 & M2 & Mc).
    destruct (min2_Fin_le m (inject_Z 1)) as (r & -> & R1 & R2 & Rc).
    exists r. split; [reflexivity|].
    split; [apply (Qle_trans _ m); assumption|].
    split; [apply (Qle_trans _ m); assumption|].
    split; [exact R2|].
    destruct Rc as [-> | ->]; [destruct Mc as [-> | ->]|]; auto. }
  split.
  { intros N. rewrite E. unfold min3. apply min2_NaN. left.
    apply min2_NaN. exact N. }
  split.
  { intros Nw Nh. rewrite E. apply min3_least; [exact Nw | exact Nh | discriminate]. }
  split; [apply newScale_not_above_one|].
  split.
  { intros Hw Hh. destruct (P Hw Hh) as (r & Er & A & B & C & D).
    exists r. split; [exact Er|]. split; [exact A|]. split; [exact B|].
    split; [exact C|].
    destruct D as [-> | [-> | ->]]; [left | right; left | right; right];
      reflexivity. }
  intros Hzero Hcw Hv Hw Hh. destruct (P Hw Hh) as (r & Er & _ & _ & _ & D).
  exists r. split; [exact Er|].
  pose proof (inject_Z_pos _ Hcw) as Pc.
  pose proof (inject_Z_pos _ Hv) as Pv.
  pose proof (inject_Z_pos _ Hw) as Pw.
  pose proof (inject_Z_pos _ Hh) as Ph.
  destruct D as [-> | [-> | ->]].
  - apply Qdiv_pos; assumption.
  - apply Qdiv_pos; [|exact Ph]. unfold containerH. rewrite Hzero. cbn [Z.eqb].
    apply Qmult_lt_0_compat; [exact Pv | reflexivity].
  - reflexivity.
Qed.

(** Image 800x600, container 400 wide with no measured height, viewport 500
    high: the fallback height 300 gives the ratios 1/2 and 1/2, and the
    scale is 1/2. *)
Lemma fit_scale_min_of_ratios_witness :
  exists r,
    scale (fitImageToContainer
             (Some {| clientWidth := 400; clientHeight := 0 |}) 500 800 600
             initialState) = Fin r
    /\ (r == 1 # 2)%Q /\ (0 < r)%Q.
Proof.
  destruct (fit_scale_min_of_ratios {| clientWidth := 400; clientHeight := 0 |}
              500 800 600 initialState) as (_ & _ & _ & M & Pz).
  destruct (M eq_refl eq_refl) as (r & Er & _ & _ & _ & D).
  destruct (Pz eq_refl eq_refl eq_refl eq_refl eq_refl) as (r' & Er' & Hpos).
  rewrite Er in Er'. injection Er' as <-.
  exists r. split; [exact Er|]. split; [|exact Hpos].
  cbn in Er. injection Er as <-. reflexivity.
Defined.

(** C2, as the claim words it, fails: in a container that is not laid out
    (measured width and height both 0) the fallback height is used and the
    scale is 0 all the same. *)
Lemma unlaid_container_scale_zero :
  let c := {| clientWidth := 0; clientHeight := 0 |} in
  let s := scale (fitImageToContainer (Some c) 500 800 600 initialState) in
  clientHeight c = 0
  /\ effectiveHeight c 500 = mul (of_Z 500) zero_point_six
  /\ gtb s (of_Z 0) = false
  /\ exists r, s = Fin r /\ (r == 0)%Q.
Proof.
  cbv zeta. split; [reflexivity|]. split; [reflexivity|].
  split; [reflexivity|]. eexists. split; reflexivity.
Qed.

End Scaler.

(* ================================================================== *)
(** ** Coordinate mapper *)

Section Mapper.
Import JsNum CanvasEditor.


Lemma getCoordinates_None (canvasRef : option Canvas) (e : PointerEvt) :
  getCoordinates canvasRef e = None <-> canvasRef = None \/ e = Touch [].
Proof.
  unfold getCoordinates. split.
  - destruct canvasRef as [canvas|]; [|auto].
    destruct e as [cx cy|[|[tx ty] ts]]; cbn; try discriminate. auto.
  - intros [->| ->]; [reflexivity|].
    destruct canvasRef; reflexivity.
Qed.





(** C5, as the code has it. The mapper answers [null] exactly when the
    canvas element is absent or a touch event carries no touch, and then
    neither [startDrawing] nor [draw] records a point; the size of the
    bounding box is not looked at. *)
Theorem mapper_not_ready (props : Props) (canvasRef : option Canvas)
    (e : PointerEvt) (st : State) :
  (getCoordinates canvasRef e = None <-> canvasRef = None \/ e = Touch [])
  /\ (getCoordinates canvasRef e = None ->
      startDrawing props canvasRef e st = st
      /\ draw props canvasRef e st = st).
Proof.
  split; [apply getCoordinates_None|].
  intros E. unfold startDrawing, draw. rewrite E.
  split.
  - destruct (isProcessing props); reflexivity.
  - destruct (negb (isDrawing st) || isProcessing props); reflexivity.
Qed.

(** A touch-end event (no touch left) on a mounted canvas during a stroke. *)
Lemma mapper_not_ready_witness :
  let canvas := Some {| canvas_width := 800; canvas_height := 600;
                        boundingClientRect :=
                          {| rect_left := Fin 0; rect_top := Fin 0;
                             rect_width := Fin 400; rect_height := Fin 300 |} |} in
  let props := {| brushSize := 30; isProcessing := false; triggerExport := 0 |} in
  let st := setIsDrawing true initialState in
  getCoordinates canvas (Touch []) = None
  /\ startDrawing props canvas (Touch []) st = st
  /\ draw props canvas (Touch []) st = st.
Proof.
  intros canvas props st.
  destruct (mapper_not_ready props canvas (Touch []) st) as (I & N).
  assert (E : getCoordinates canvas (Touch []) = None)
    by (apply I; right; reflexivity).
  split; [exact E | exact (N E)].
Defined.

(** C5, as the claim words it, fails: on a canvas whose box is 0 x 0 the
    mapper divides by zero and returns a point, which [startDrawing]
    records. *)
Lemma zero_box_point_recorded :
  let canvas := Some {| canvas_width := 800; canvas_height := 600;
                        boundingClientRect :=
                          {| rect_left := Fin 0; rect_top := Fin 0;
                             rect_width := Fin 0; rect_height := Fin 0 |} |} in
  let props := {| brushSize := 30; isProcessing := false; triggerExport := 0 |} in
  getCoordinates canvas (Mouse (Fin 10) (Fin 10))
    = Some {| x := PosInf; y := PosInf |}
  /\ getCoordinates canvas (Mouse (Fin 10) (Fin 10)) <> None
  /\ currentPath (startDrawing props canvas (Mouse (Fin 10) (Fin 10)) initialState)
     = [{| x := PosInf; y := PosInf |}].
Proof.
  cbv zeta. split; [reflexivity|]. split; [discriminate | reflexivity].
Qed.

End Mapper.

(* ================================================================== *)
(** ** Stroke model *)

Section Strokes.
Import JsNum CanvasEditor.

Lemma draw_while_drawing (props : Props) (canvasRef : option Canvas)
    (e : PointerEvt) (st : State) :
  isDrawing (draw props canvasRef e st) = isDrawing st
  /\ paths (draw props canvasRef e st) = paths st
  /\ exists extra,
       currentPath (draw props canvasRef e st) = currentPath st ++ extra.
Proof.
  unfold draw.
  destruct (negb (isDrawing st) || isProcessing props).
  - repeat split. exists []. symmetry. apply app_nil_r.
  - destruct (getCoordinates canvasRef e) as [point|].
    + repeat split. exists [point]. reflexivity.
    + repeat split. exists []. symmetry. apply app_nil_r.
Qed.

Lemma runMoves_while_drawing (ms : list (Props * option Canvas * PointerEvt))
    (st : State) :
  isDrawing (runMoves ms st) = isDrawing st
  /\ paths (runMoves ms st) = paths st
  /\ exists extra, currentPath (runMoves ms st) = currentPath st ++ extra.
Proof.
  revert st. induction ms as [|[[p cv] e] ms IH]; intros st.
  - repeat split. exists []. symmetry. apply app_nil_r.
  - cbn [runMoves fold_left].
    destruct (IH (draw p cv e st)) as (D & P & extra & C).
    destruct (draw_while_drawing p cv e st) as (D0 & P0 & extra0 & C0).
    unfold runMoves in *. rewrite D, P, C, D0, P0, C0.
    repeat split. exists (extra0 ++ extra). symmetry. apply app_assoc.
Qed.

(** A gesture that begins a stroke appends exactly one stroke, made of the
    pointer-down point and the mapped moves, with the brush size of the
    render in which the gesture ends. *)
Lemma runGesture_appends (g : Gesture) (st : State) :
  beginsStroke g = true ->
  exists p0 rest,
    getCoordinates (down_canvas g) (down_evt g) = Some p0
    /\ paths (runGesture g st)
       = paths st ++ [{| points := p0 :: rest; size := brushSize (up_props g) |}]
    /\ currentPath (runGesture g st) = []
    /\ isDrawing (runGesture g st) = false.
Proof.
  unfold beginsStroke. intros B. apply andb_true_iff in B as [Bp Bc].
  apply negb_true_iff in Bp.
  destruct (getCoordinates (down_canvas g) (down_evt g)) as [p0|] eqn:E;
    [|discriminate].
  unfold runGesture, startDrawing. rewrite Bp, E.
  set (s1 := setCurrentPath _ _).
  destruct (runMoves_while_drawing (moves g) s1) as (D & P & rest & C).
  exists p0, rest. split; [reflexivity|].
  unfold stopDrawing. rewrite D, C. cbn. rewrite P. auto.
Qed.

Lemma undoLast_paths (st : State) : paths (undoLast st) = removelast (paths st).
Proof. reflexivity. Qed.




(** C8. [startDrawing] while [isProcessing] is true returns at once: the
    whole state of the component (completed strokes, stroke in progress,
    drawing flag) is unchanged. *)
Theorem startDrawing_while_processing (props : Props)
    (canvasRef : option Canvas) (e : PointerEvt) (st : State)
    (H : isProcessing props = true) :
  startDrawing props canvasRef e st = st.
Proof.
  unfold startDrawing. rewrite H. reflexivity.
Qed.

(** A mouse-down on a laid-out canvas while a request is in flight. *)
Lemma startDrawing_while_processing_witness :
  let canvas := Some {| canvas_width := 800; canvas_height := 600;
                        boundingClientRect :=
                          {| rect_left := Fin 0; rect_top := Fin 0;
                             rect_width := Fin 400; rect_height := Fin 300 |} |} in
  startDrawing {| brushSize := 30; isProcessing := true; triggerExport := 1 |}
    canvas (Mouse (Fin 50) (Fin 50)) initialState = initialState.
Proof.
  intros canvas.
  apply (startDrawing_while_processing
           {| brushSize := 30; isProcessing := true; triggerExport := 1 |}
           canvas (Mouse (Fin 50) (Fin 50)) initialState).
  reflexivity.
Defined.

End Strokes.

Section Gestures.
Import JsNum CanvasEditor Scenario.

(** C3, as the code has it. The stroke appended at gesture end carries the
    brush size of the render in which the gesture ends ([stopDrawing] reads
    [brushSize] then); it is the size at gesture start whenever the brush
    size is the same at both ends of the gesture. *)
Theorem stroke_width_at_gesture_end (g : Gesture) (st : State)
    (H : beginsStroke g = true) :
  exists p0 rest,
    getCoordinates (down_canvas g) (down_evt g) = Some p0
    /\ paths (runGesture g st)
       = paths st ++ [{| points := p0 :: rest; size := brushSize (up_props g) |}]
    /\ (brushSize (up_props g) = brushSize (down_props g) ->
        paths (runGesture g st)
        = paths st ++ [{| points := p0 :: rest;
                          size := brushSize (down_props g) |}]).
Proof.
  destruct (runGesture_appends g st H) as (p0 & rest & E & P & _).
  exists p0, rest. split; [exact E|]. split; [exact P|].
  intros <-. exact P.
Qed.

(** A tap with brush size 30 at both ends is stored with size 30. *)
Lemma stroke_width_at_gesture_end_witness :
  map size (paths (runGesture (tap 30 30) initialState)) = [30].
Proof.
  destruct (stroke_width_at_gesture_end (tap 30 30) initialState eq_refl)
    as (p0 & rest & _ & _ & P).
  rewrite (P eq_refl). reflexivity.
Defined.

(** C3, as the claim words it, fails: brush size 30 at pointer down, changed
    to 50 before pointer up; the stroke is stored with size 50. *)
Lemma brush_changed_mid_gesture :
  brushSize (down_props (tap 30 50)) = 30
  /\ map size (paths (runGesture (tap 30 50) initialState)) = [50]
  /\ map size (paths (runGesture (tap 30 50) initialState))
     <> [brushSize (down_props (tap 30 50))].
Proof.
  split; [reflexivity|]. split; [reflexivity | discriminate].
Qed.



End Gestures.

(* ================================================================== *)
(** ** Mask exporter *)

Section Exporter.
Import JsNum CanvasEditor Scenario.

Lemma Forall_removelast {A : Type} (P : A -> Prop) (l : list A) :
  Forall P l -> Forall P (removelast l).
Proof.
  induction 1 as [|a l Ha Hl IH]; [constructor|].
  destruct l as [|b l]; [constructor|].
  change (removelast (a :: b :: l)) with (a :: removelast (b :: l)).
  constructor; assumption.
Qed.

Lemma fitImageToContainer_paths (c : option Container) (ih w h : Z) (st : State) :
  paths (fitImageToContainer c ih w h st) = paths st.
Proof. destruct c; reflexivity. Qed.

(** Every handler keeps the completed strokes non-empty. *)
Lemma step_nonEmpty (props : Props) (ev : Event) (st : State) :
  Forall nonEmptyPath (paths st) -> Forall nonEmptyPath (paths (step props ev st)).
Proof.
  intros F. destruct ev as [c ih w h|c ih|cv e|cv e| | |]; cbn [step].
  - unfold imgOnload. rewrite fitImageToContainer_paths. exact F.
  - unfold handleResize. destruct (0 <? width (imgDimensions st));
      [rewrite fitImageToContainer_paths|]; exact F.
  - unfold startDrawing. destruct (isProcessing props); [exact F|].
    destruct (getCoordinates cv e); exact F.
  - destruct (draw_while_drawing props cv e st) as (_ & -> & _). exact F.
  - unfold stopDrawing.
    destruct (isDrawing st && (0 <? List.length (currentPath st))%nat) eqn:E;
      [|exact F].
    cbn. apply Forall_app. split; [exact F|].
    constructor; [|constructor]. unfold nonEmptyPath. cbn.
    apply andb_true_iff in E as [_ E]. apply Nat.ltb_lt in E.
    intros N. rewrite N in E. cbn in E. lia.
  - destruct (toolbarVisible props st); [|exact F].
    rewrite undoLast_paths. apply Forall_removelast. exact F.
  - destruct (toolbarVisible props st); [constructor | exact F].
Qed.

Lemma reachable_nonEmpty (st : State) :
  reachable st -> Forall nonEmptyPath (paths st).
Proof.
  induction 1 as [|props ev st R IH]; [constructor|].
  apply step_nonEmpty. exact IH.
Qed.

Lemma forEachPath_total (ps : list Path) :
  Forall nonEmptyPath ps -> exists calls, forEachPath ps = Normal calls.
Proof.
  induction 1 as [|p ps Hp F (calls & IH)]; [eexists; reflexivity|].
  cbn [forEachPath]. unfold strokePath, nonEmptyPath in *.
  destruct (points p) as [|p0 rest]; [contradiction|].
  cbn [bind]. rewrite IH. eexists. reflexivity.
Qed.

Lemma generateMask_total (ctx : bool) (st : State) :
  Forall nonEmptyPath (paths st) ->
  exists calls,
    generateMask ctx st =
    Normal (if ctx then
              Some {| mask_width := width (imgDimensions st);
                      mask_height := height (imgDimensions st);
                      mask_calls := calls |}
            else None).
Proof.
  intros F. destruct (forEachPath_total _ F) as (calls & E).
  unfold generateMask. destruct ctx; cbn [negb].
  - rewrite E. eexists. reflexivity.
  - exists []. reflexivity.
Qed.

(** C10. In every state the component can reach, each completed stroke has
    at least one point, so the exporter's read of the first point of each
    stroke does not throw: [generateMask] completes normally. *)
Theorem completed_strokes_nonempty (st : State) (H : reachable st) :
  Forall (fun p => (1 <= List.length (points p))%nat) (paths st)
  /\ forall ctx, exists r, generateMask ctx st = Normal r.
Proof.
  pose proof (reachable_nonEmpty st H) as F. split.
  - eapply Forall_impl; [|exact F]. unfold nonEmptyPath. intros p Hp.
    destruct (points p); [contradiction | cbn; lia].
  - intros ctx. destruct (generateMask_total ctx st F) as (calls & E).
    rewrite E. eexists. reflexivity.
Qed.

(** C1 fails on the code. With the source image 800 x 600 not loaded yet,
    the export effect makes a mask of 0 x 0, not of the image's size; once
    [img.onload] has run the mask is 800 x 600. *)
Theorem mask_before_image_load :
  let img := {| ImageLoader.img_width := 800; ImageLoader.img_height := 600 |} in
  let load :=
    ImageLoader.onloadOf img (Some {| clientWidth := 400; clientHeight := 300 |})
      500 in
  (exists m,
     exportEffect exportProps true initialState = Normal (Some m)
     /\ (mask_width m, mask_height m) = (0, 0)
     /\ (mask_width m, mask_height m)
        <> (ImageLoader.img_width img, ImageLoader.img_height img))
  /\ (exists m,
        exportEffect exportProps true (step drawingProps load initialState)
        = Normal (Some m)
        /\ (mask_width m, mask_height m)
           = (ImageLoader.img_width img, ImageLoader.img_height img)).
Proof.
  cbv zeta. split.
  - eexists. split; [reflexivity|]. split; [reflexivity | discriminate].
  - eexists. split; reflexivity.
Qed.

End Exporter.

(* ================================================================== *)
(** ** Export trigger *)

Section Trigger.
Import JsNum CanvasEditor App Scenario.

Lemma mount_committed (ctx : bool) (brush : Z) (processing : bool) :
  exists s0, mount ctx brush processing = Normal s0
             /\ committed s0 /\ exportTrigger s0 = 0 /\ maskReadyCalls s0 = [].
Proof.
  eexists. split; [reflexivity|]. session_facts.
Qed.

Lemma turn_committed (t : Turn) (s : Session) :
  committed s ->
  exists s' extra,
    turn t s = Normal s'
    /\ committed s'
    /\ exportTrigger s' = exportTrigger s + bump t
    /\ maskReadyCalls s' = maskReadyCalls s ++ extra
    /\ List.length extra = fires t.
Proof.
  intros (R & D & N).
  destruct t as [brush processing ctx [|ev|]];
    unfold turn, fires, bump, isStartProcessing;
    cbn [turn_action turn_brush turn_processing turn_context2d dispatch andb].
  - (* the counter moves: the effect runs with a non-zero dependency *)
    unfold commit, depsChanged. cbn [lastDeps exportTrigger editor maskReadyCalls].
    rewrite D.
    destruct (Z.eqb_spec (exportTrigger s) (exportTrigger s + 1)) as [E|_];
      [lia|]. cbn [negb].
    unfold exportEffect. cbn [triggerExport].
    destruct (Z.eqb_spec (exportTrigger s + 1) 0) as [E|_]; [lia|].
    destruct (generateMask_total ctx (editor s) (reachable_nonEmpty _ R))
      as (calls & ->).
    cbn [bind]. destruct ctx.
    + eexists. eexists [_]. split; [reflexivity|]. session_facts.
    + eexists. exists []. split; [reflexivity|]. session_facts.
  - (* an editor event: the dependency is the same, the effect is skipped *)
    unfold commit, depsChanged. cbn [lastDeps exportTrigger editor maskReadyCalls].
    rewrite D, Z.eqb_refl. cbn [negb].
    eexists. exists []. split; [reflexivity|]. session_facts.
  - unfold commit, depsChanged. rewrite D, Z.eqb_refl. cbn [negb].
    exists s, []. split; [reflexivity|]. session_facts.
Qed.

Lemma run_committed (ts : list Turn) (s : Session) :
  committed s ->
  exists s',
    run ts s = Normal s'
    /\ committed s'
    /\ exportTrigger s' = exportTrigger s + Z.of_nat (increments ts)
    /\ (List.length (maskReadyCalls s')
        = List.length (maskReadyCalls s)
          + List.length (filter (fun t => isStartProcessing t && turn_context2d t) ts))%nat.
Proof.
  revert s. induction ts as [|t ts IH]; intros s C.
  - exists s. split; [reflexivity|]. split; [exact C|].
    unfold increments. cbn. split; lia.
  - destruct (turn_committed t s C) as (s1 & extra & T & C1 & E1 & M1 & L1).
    destruct (IH s1 C1) as (s' & Rn & C' & E' & M').
    exists s'. cbn [run]. rewrite T. cbn [bind].
    split; [exact Rn|]. split; [exact C'|]. split.
    + rewrite E', E1. unfold increments, bump. cbn [filter].
      destruct (isStartProcessing t); cbn [List.length]; lia.
    + rewrite M', M1, length_app, L1. unfold fires. cbn [filter].
      destruct (isStartProcessing t && turn_context2d t); cbn [List.length]; lia.
Qed.

Lemma filter_all_context (ts : list Turn) :
  Forall (fun t => turn_context2d t = true) ts ->
  filter (fun t => isStartProcessing t && turn_context2d t) ts
  = filter isStartProcessing ts.
Proof.
  induction 1 as [|t ts Ht F IH]; [reflexivity|].
  cbn [filter]. rewrite Ht, andb_true_r, IH. reflexivity.
Qed.

Lemma filter_length_le {A : Type} (f g : A -> bool) (l : list A) :
  (forall a, f a = true -> g a = true) ->
  (List.length (filter f l) <= List.length (filter g l))%nat.
Proof.
  intros Hfg. induction l as [|a l IH]; [reflexivity|].
  cbn [filter]. destruct (f a) eqn:Ef.
  - rewrite (Hfg a Ef). cbn. lia.
  - destruct (g a); cbn; lia.
Qed.

(** C7. The effect run at mount, with the counter at 0, calls nothing; as
    long as no [handleStartProcessing] has run the counter is 0 and
    [onMaskReady] has not been called; and when a 2D context is to be had,
    the number of calls of [onMaskReady] after any sequence of turns is the
    number of increments in it, each further increment adding exactly one
    call and any other turn none. *)
Theorem export_once_per_increment (ctx0 : bool) (brush : Z) (processing : bool)
    (ts : list Turn) :
  exists s0 s,
    mount ctx0 brush processing = Normal s0
    /\ maskReadyCalls s0 = []
    /\ run ts s0 = Normal s
    /\ exportTrigger s = Z.of_nat (increments ts)
    /\ (increments ts = 0%nat -> maskReadyCalls s = [])
    /\ (Forall (fun t => turn_context2d t = true) ts ->
        List.length (maskReadyCalls s) = increments ts
        /\ forall t, turn_context2d t = true ->
             exists s' extra,
               turn t s = Normal s'
               /\ maskReadyCalls s' = maskReadyCalls s ++ extra
               /\ List.length extra
                  = if isStartProcessing t then 1%nat else 0%nat).
Proof.
  destruct (mount_committed ctx0 brush processing) as (s0 & M & C0 & E0 & K0).
  destruct (run_committed ts s0 C0) as (s & Rn & C & E & L).
  exists s0, s. rewrite E0 in E. rewrite K0 in L. cbn in E, L.
  split; [exact M|]. split; [exact K0|]. split; [exact Rn|].
  split; [exact E|]. split.
  - intros Z0. apply length_zero_iff_nil. rewrite L.
    pose proof (filter_length_le
                  (fun t => isStartProcessing t && turn_context2d t)
                  isStartProcessing ts) as Hle.
    unfold increments in Z0. rewrite Z0 in Hle.
    assert (forall t, isStartProcessing t && turn_context2d t = true ->
                      isStartProcessing t = true) as Himp
      by (intros t Ht; apply andb_true_iff in Ht; tauto).
    specialize (Hle Himp). lia.
  - intros F. split.
    + rewrite L, (filter_all_context ts F). reflexivity.
    + intros t Ht.
      destruct (turn_committed t s C) as (s' & extra & T & _ & _ & K & Lx).
      exists s', extra. split; [exact T|]. split; [exact K|].
      rewrite Lx. unfold fires. rewrite Ht, andb_true_r. reflexivity.
Qed.

End Trigger.

Section Scenarios.
Import JsNum CanvasEditor App Scenario.

(** Load, draw one stroke, export twice with a re-render in between: two
    calls of [onMaskReady]. *)
Lemma export_once_per_increment_witness :
  exists s0 s,
    mount true 30 false = Normal s0
    /\ run sampleTurns s0 = Normal s
    /\ exportTrigger s = 2
    /\ List.length (maskReadyCalls s) = 2%nat.
Proof.
  destruct (export_once_per_increment true 30 false sampleTurns)
    as (s0 & s & M & _ & Rn & E & _ & F).
  assert (A : Forall (fun t => turn_context2d t = true) sampleTurns)
    by (repeat constructor).
  destruct (F A) as (L & _).
  exists s0, s. split; [exact M|]. split; [exact Rn|].
  split; [exact E | exact L].
Defined.

(** The state after load and one stroke is reachable; its mask is made
    without error. *)
Lemma completed_strokes_nonempty_witness :
  Forall (fun p => (1 <= List.length (points p))%nat) (paths drawnState)
  /\ exists r, generateMask true drawnState = Normal r.
Proof.
  assert (R : reachable drawnState)
    by (unfold drawnState; repeat apply reachable_step; apply reachable_init).
  destruct (completed_strokes_nonempty drawnState R) as (F & G).
  split; [exact F | exact (G true)].
Defined.

(** C4 fails on the code. The effect looks at [triggerExport] only: with the
    image not loaded ([imgDimensions] still 0 x 0) and the counter at 1, a
    0 x 0 canvas is made, painted and handed to [onMaskReady]. *)
Theorem export_before_image_load :
  imgDimensions initialState = {| width := 0; height := 0 |}
  /\ exportEffect {| brushSize := 30; isProcessing := false; triggerExport := 1 |}
       true initialState
     = Normal (Some {| mask_width := 0; mask_height := 0;
                       mask_calls :=
                         [SetFillStyle "black"; FillRect 0 0 0 0;
                          SetLineCap "round"; SetLineJoin "round";
                          SetStrokeStyle "white"] |})
  /\ exists s0 s,
       mount true 30 false = Normal s0
       /\ turn {| turn_brush := 30; turn_processing := false;
                  turn_context2d := true;
                  turn_action := HandleStartProcessing |} s0 = Normal s
       /\ map (fun m => (mask_width m, mask_height m)) (maskReadyCalls s)
          = [(0, 0)].
Proof.
  split; [reflexivity|]. split; [reflexivity|].
  eexists. eexists. split; [reflexivity|]. split; reflexivity.
Qed.

End Scenarios.

(* ================================================================== *)
(** ** Further properties: the component's invariants *)

Section EditorInvariants.
Import JsNum CanvasEditor Scenario.

Lemma fitImageToContainer_scale (c : option Container) (ih w h : Z) (st : State) :
  gtb (scale st) (of_Z 1) = false ->
  gtb (scale (fitImageToContainer c ih w h st)) (of_Z 1) = false.
Proof.
  intros Hs. destruct c as [c|]; [|exact Hs].
  apply newScale_not_above_one.
Qed.

Lemma step_scale (props : Props) (ev : Event) (st : State) :
  gtb (scale st) (of_Z 1) = false ->
  gtb (scale (step props ev st)) (of_Z 1) = false.
Proof.
  intros Hs. destruct ev as [c ih w h|c ih|cv e|cv e| | |]; cbn [step].
  - unfold imgOnload. apply fitImageToContainer_scale. exact Hs.
  - unfold handleResize. destruct (0 <? width (imgDimensions st));
      [apply fitImageToContainer_scale|]; exact Hs.
  - unfold startDrawing. destruct (isProcessing props); [exact Hs|].
    destruct (getCoordinates cv e); exact Hs.
  - unfold draw. destruct (negb (isDrawing st) || isProcessing props);
      [exact Hs|]. destruct (getCoordinates cv e); exact Hs.
  - unfold stopDrawing.
    destruct (isDrawing st && (0 <? List.length (currentPath st))%nat); exact Hs.
  - destruct (toolbarVisible props st); exact Hs.
  - destruct (toolbarVisible props st); exact Hs.
Qed.

(** The display scale is never above 1 in any state the component can
    reach. *)
Theorem reachable_scale_at_most_one (st : State) (H : reachable st) :
  gtb (scale st) (of_Z 1) = false.
Proof.
  induction H as [|props ev st R IH]; [reflexivity|].
  apply step_scale. exact IH.
Qed.

Lemma reachable_scale_at_most_one_witness :
  gtb (scale drawnState) (of_Z 1) = false.
Proof.
  apply (reachable_scale_at_most_one drawnState).
  unfold drawnState. repeat apply reachable_step. apply reachable_init.
Defined.

Lemma step_idle_no_stroke (props : Props) (ev : Event) (st : State) :
  (isDrawing st = false -> currentPath st = []) ->
  isDrawing (step props ev st) = false -> currentPath (step props ev st) = [].
Proof.
  intros I. destruct ev as [c ih w h|c ih|cv e|cv e| | |]; cbn [step].
  - unfold imgOnload. destruct c; exact I.
  - unfold handleResize. destruct (0 <? width (imgDimensions st));
      [destruct c|]; exact I.
  - unfold startDrawing. destruct (isProcessing props); [exact I|].
    destruct (getCoordinates cv e); [discriminate | exact I].
  - unfold draw. destruct (isDrawing st) eqn:D; cbn [negb orb].
    + destruct (isProcessing props); [|destruct (getCoordinates cv e)];
        cbn; rewrite ?D; discriminate.
    + intros _. apply I. reflexivity.
  - unfold stopDrawing. intros _.
    destruct (isDrawing st) eqn:D; cbn [andb].
    + destruct (currentPath st) as [|p ps] eqn:E; cbn; [exact E | reflexivity].
    + cbn. apply I. reflexivity.
  - destruct (toolbarVisible props st); exact I.
  - destruct (toolbarVisible props st); [reflexivity | exact I].
Qed.

(** Outside a gesture there is no stroke in progress: in every reachable
    state, [isDrawing = false] implies that [currentPath] is empty. *)
Theorem idle_has_no_stroke_in_progress (st : State) (H : reachable st) :
  isDrawing st = false -> currentPath st = [].
Proof.
  induction H as [|props ev st R IH]; [reflexivity|].
  apply step_idle_no_stroke. exact IH.
Qed.

Lemma idle_has_no_stroke_in_progress_witness :
  isDrawing drawnState = false /\ currentPath drawnState = [].
Proof.
  assert (R : reachable drawnState)
    by (unfold drawnState; repeat apply reachable_step; apply reachable_init).
  split; [reflexivity|].
  apply (idle_has_no_stroke_in_progress drawnState R). reflexivity.
Defined.

(** Pointer up followed by pointer leave (or any second end of gesture)
    stores the stroke once: [stopDrawing] after [stopDrawing] changes
    nothing, whatever the props of the two renders. *)
Theorem stopDrawing_twice (p1 p2 : Props) (st : State) :
  stopDrawing p2 (stopDrawing p1 st) = stopDrawing p1 st.
Proof.
  unfold stopDrawing at 1. cbn. reflexivity.
Qed.

End EditorInvariants.

(* ================================================================== *)
(** ** Further properties: what the mask and the overlay stroke *)

Section StrokedPaths.
Import JsNum CanvasEditor Compositor Scenario.

Lemma point_eta (p : Point) : {| x := x p; y := y p |} = p.
Proof. destruct p; reflexivity. Qed.

Lemma path_eta (p : Path) : {| points := points p; size := size p |} = p.
Proof. destruct p; reflexivity. Qed.

Lemma strokesOf_lineTo (w : Z) (pts rest : list Point) (more : list CanvasCall) :
  strokesOf w pts (map (fun p => LineTo (x p) (y p)) rest ++ more)
  = strokesOf w (pts ++ rest) more.
Proof.
  revert pts. induction rest as [|p rest IH]; intros pts.
  - cbn. rewrite app_nil_r. reflexivity.
  - cbn [map app strokesOf]. rewrite IH, point_eta, <- app_assoc. reflexivity.
Qed.

(** The calls of one path of the mask stroke that path and leave it as the
    current one. *)
Lemma strokesOf_strokePath (w : Z) (pts : list Point) (p : Path)
    (calls more : list CanvasCall) :
  strokePath p = Normal calls ->
  strokesOf w pts (calls ++ more) = p :: strokesOf (size p) (points p) more.
Proof.
  unfold strokePath. destruct (points p) as [|p0 rest] eqn:E; [discriminate|].
  intros N. injection N as <-.
  cbn [app strokesOf]. rewrite <- !app_assoc, strokesOf_lineTo, point_eta.
  cbn [app strokesOf]. rewrite <- E, path_eta. reflexivity.
Qed.

Lemma strokesOf_forEachPath (ps : list Path) (calls : list CanvasCall) :
  forEachPath ps = Normal calls ->
  forall w pts, strokesOf w pts calls = ps.
Proof.
  revert calls. induction ps as [|p ps IH]; intros calls.
  - cbn. intros N. injection N as <-. reflexivity.
  - cbn [forEachPath].
    destruct (strokePath p) as [c1|] eqn:E1; cbn [bind]; [|discriminate].
    destruct (forEachPath ps) as [c2|] eqn:E2; cbn [bind]; [|discriminate].
    intros N w pts. injection N as <-.
    rewrite (strokesOf_strokePath w pts p c1 c2 E1), (IH c2 eq_refl).
    reflexivity.
Qed.

(** Round trip of the export: in every reachable state, with a 2D context,
    the mask is made, has the size of the image, and the paths its calls
    stroke are exactly the completed strokes, with their points and sizes,
    in order. *)
Theorem mask_strokes_completed_paths (st : State) (H : reachable st) :
  exists m,
    generateMask true st = Normal (Some m)
    /\ mask_width m = width (imgDimensions st)
    /\ mask_height m = height (imgDimensions st)
    /\ strokedPaths (mask_calls m) = paths st.
Proof.
  destruct (forEachPath_total _ (reachable_nonEmpty st H)) as (calls & E).
  unfold generateMask. cbn [negb]. rewrite E. cbn [bind].
  eexists. split; [reflexivity|]. cbn [mask_width mask_height mask_calls].
  split; [reflexivity|]. split; [reflexivity|].
  unfold strokedPaths. cbn [app strokesOf].
  apply (strokesOf_forEachPath _ _ E).
Qed.

Lemma mask_strokes_completed_paths_witness :
  exists m,
    generateMask true drawnState = Normal (Some m)
    /\ mask_width m = 800 /\ mask_height m = 600
    /\ List.length (strokedPaths (mask_calls m)) = 1%nat.
Proof.
  assert (R : reachable drawnState)
    by (unfold drawnState; repeat apply reachable_step; apply reachable_init).
  destruct (mask_strokes_completed_paths drawnState R) as (m & G & W & Hh & S).
  exists m. split; [exact G|]. split; [exact W|]. split; [exact Hh|].
  rewrite S. reflexivity.
Defined.

Lemma strokesOf_drawPath (w : Z) (pts ps : list Point) (sz : Z)
    (more : list CanvasCall) :
  ps <> [] ->
  strokesOf w pts (drawPath ps sz highlight ++ more)
  = {| points := ps; size := sz |} :: strokesOf sz ps more.
Proof.
  destruct ps as [|p0 rest]; [contradiction|]. intros _.
  cbn [drawPath app strokesOf].
  rewrite <- !app_assoc, strokesOf_lineTo, point_eta. reflexivity.
Qed.

Lemma strokesOf_saved_paths (ps : list Path) (w : Z) (pts : list Point)
    (more : list CanvasCall) :
  exists w' pts',
    strokesOf w pts
      (flat_map (fun path => drawPath (points path) (size path) highlight) ps
       ++ more)
    = filter hasPoints ps ++ strokesOf w' pts' more.
Proof.
  revert w pts. induction ps as [|p ps IH]; intros w pts.
  - exists w, pts. reflexivity.
  - cbn [flat_map filter]. rewrite <- app_assoc. unfold hasPoints at 1.
    destruct (points p) as [|p0 rest] eqn:E.
    + cbn [drawPath app]. apply IH.
    + rewrite strokesOf_drawPath by discriminate.
      destruct (IH (size p) (p0 :: rest)) as (w' & pts' & ->).
      exists w', pts'. rewrite <- E, path_eta. reflexivity.
Qed.

Lemma filter_hasPoints (ps : list Path) :
  Forall nonEmptyPath ps -> filter hasPoints ps = ps.
Proof.
  induction 1 as [|p ps Hp F IH]; [reflexivity|].
  cbn [filter]. unfold nonEmptyPath in Hp. unfold hasPoints at 1.
  destruct (points p); [contradiction|]. rewrite IH. reflexivity.
Qed.

(** The overlay shows what is stored: in every reachable state the paths
    that [renderPaths] strokes are the completed strokes in order, followed
    by the stroke in progress at the brush size of the current render. *)
Theorem overlay_strokes_model (props : Props) (st : State) (H : reachable st) :
  strokedPaths (renderPaths props st) = paths st ++ strokeInProgress props st.
Proof.
  unfold strokedPaths, renderPaths. cbn [app strokesOf].
  destruct (strokesOf_saved_paths (paths st) 1 []
              (if (0 <? List.length (currentPath st))%nat
               then drawPath (currentPath st) (brushSize props) highlight
               else [])) as (w' & pts' & ->).
  rewrite (filter_hasPoints _ (reachable_nonEmpty st H)). f_equal.
  unfold strokeInProgress.
  destruct (currentPath st) as [|p0 rest]; [reflexivity|].
  cbn [List.length Nat.ltb Nat.leb].
  rewrite <- (app_nil_r (drawPath _ _ _)), strokesOf_drawPath by discriminate.
  reflexivity.
Qed.

Lemma overlay_strokes_model_witness :
  strokedPaths (renderPaths exportProps drawnState) = paths drawnState.
Proof.
  assert (R : reachable drawnState)
    by (unfold drawnState; repeat apply reachable_step; apply reachable_init).
  rewrite (overlay_strokes_model exportProps drawnState R).
  apply app_nil_r.
Defined.

(** Ending a gesture does not change the picture: the calls [renderPaths]
    makes after [stopDrawing] are those it made before, the stroke in
    progress being drawn with the brush size it is then stored with. *)
Theorem stopDrawing_keeps_overlay (props : Props) (st : State)
    (H : isDrawing st = true) :
  renderPaths props (stopDrawing props st) = renderPaths props st.
Proof.
  unfold stopDrawing. rewrite H. cbn [andb].
  destruct (currentPath st) as [|p0 rest] eqn:E.
  - unfold renderPaths. cbn. rewrite E. reflexivity.
  - unfold renderPaths. cbn. rewrite E. cbn.
    rewrite flat_map_app. cbn. rewrite !app_nil_r. reflexivity.
Qed.

Lemma stopDrawing_keeps_overlay_witness :
  let st := startDrawing drawingProps (Some halfScaleCanvas)
              (Mouse (Fin 110) (Fin 70)) initialState in
  renderPaths drawingProps (stopDrawing drawingProps st)
  = renderPaths drawingProps st.
Proof.
  intros st. apply (stopDrawing_keeps_overlay drawingProps st). reflexivity.
Defined.

End StrokedPaths.

(* ================================================================== *)
(** ** Further properties: what an export depends on *)

Section ExportInputs.
Import JsNum CanvasEditor Scenario.

Lemma generateMask_inputs (ctx : bool) (st1 st2 : State) :
  paths st1 = paths st2 -> imgDimensions st1 = imgDimensions st2 ->
  generateMask ctx st1 = generateMask ctx st2.
Proof.
  intros P D. unfold generateMask. rewrite P, D. reflexivity.
Qed.

Lemma fitImageToContainer_dims (c : option Container) (ih w h : Z) (st : State) :
  imgDimensions (fitImageToContainer c ih w h st) = imgDimensions st.
Proof. destruct c; reflexivity. Qed.

Lemma startDrawing_frame (props : Props) (cv : option Canvas) (e : PointerEvt)
    (st : State) :
  paths (startDrawing props cv e st) = paths st
  /\ imgDimensions (startDrawing props cv e st) = imgDimensions st.
Proof.
  unfold startDrawing. destruct (isProcessing props); [auto|].
  destruct (getCoordinates cv e); auto.
Qed.

Lemma draw_frame (props : Props) (cv : option Canvas) (e : PointerEvt)
    (st : State) :
  paths (draw props cv e st) = paths st
  /\ imgDimensions (draw props cv e st) = imgDimensions st.
Proof.
  unfold draw. destruct (negb (isDrawing st) || isProcessing props); [auto|].
  destruct (getCoordinates cv e); auto.
Qed.

Lemma runMoves_dims (ms : list (Props * option Canvas * PointerEvt))
    (st : State) :
  imgDimensions (runMoves ms st) = imgDimensions st.
Proof.
  revert st. induction ms as [|[[p cv] e] ms IH]; intros st; [reflexivity|].
  cbn [runMoves fold_left]. unfold runMoves in IH. rewrite IH.
  apply draw_frame.
Qed.

Lemma stopDrawing_dims (props : Props) (st : State) :
  imgDimensions (stopDrawing props st) = imgDimensions st.
Proof.
  unfold stopDrawing.
  destruct (isDrawing st && (0 <? List.length (currentPath st))%nat);
    reflexivity.
Qed.

(** A stroke in progress is never exported: pointer down, pointer move and
    a window resize leave the outcome of [generateMask] as it was, in every
    state and whatever the props. *)
Theorem export_ignores_stroke_in_progress (props : Props) (ctx : bool)
    (cv : option Canvas) (e : PointerEvt) (c : option Container) (ih : Z)
    (st : State) :
  generateMask ctx (step props (PointerDown cv e) st) = generateMask ctx st
  /\ generateMask ctx (step props (PointerMove cv e) st) = generateMask ctx st
  /\ generateMask ctx (step props (WindowResize c ih) st) = generateMask ctx st.
Proof.
  cbn [step]. split; [|split]; apply generateMask_inputs.
  - apply startDrawing_frame.
  - apply startDrawing_frame.
  - apply draw_frame.
  - apply draw_frame.
  - unfold handleResize. destruct (0 <? width (imgDimensions st));
      [apply fitImageToContainer_paths | reflexivity].
  - unfold handleResize. destruct (0 <? width (imgDimensions st));
      [apply fitImageToContainer_dims | reflexivity].
Qed.

(** Undo takes back a gesture: after a gesture that begins a stroke, one
    undo gives back the completed strokes of before, and with them the same
    export. *)
Theorem undo_reverts_gesture (g : Gesture) (ctx : bool) (st : State)
    (H : beginsStroke g = true) :
  paths (undoLast (runGesture g st)) = paths st
  /\ generateMask ctx (undoLast (runGesture g st)) = generateMask ctx st.
Proof.
  assert (P : paths (undoLast (runGesture g st)) = paths st).
  { destruct (runGesture_appends g st H) as (p0 & rest & _ & P & _).
    rewrite undoLast_paths, P. apply removelast_last. }
  split; [exact P|]. apply generateMask_inputs; [exact P|].
  cbn [undoLast setPaths imgDimensions]. unfold runGesture.
  rewrite stopDrawing_dims, runMoves_dims. apply startDrawing_frame.
Qed.

Lemma undo_reverts_gesture_witness :
  paths (undoLast (runGesture (tap 30 50) drawnState)) = paths drawnState
  /\ generateMask true (undoLast (runGesture (tap 30 50) drawnState))
     = generateMask true drawnState.
Proof.
  apply (undo_reverts_gesture (tap 30 50) true drawnState). reflexivity.
Defined.

Lemma forEachPath_TypeError (ps : list Path) :
  forEachPath ps = TypeError <-> Exists (fun p => points p = []) ps.
Proof.
  induction ps as [|p ps IH]; cbn [forEachPath].
  - split; [discriminate | intros E; inversion E].
  - unfold strokePath. destruct (points p) as [|p0 rest] eqn:E; cbn [bind].
    + split; [intros _; left; exact E | reflexivity].
    + destruct (forEachPath ps) as [calls|]; cbn [bind].
      * split; [discriminate|]. intros X. inversion X as [? ? Hp|? ? Hps]; subst.
        -- rewrite E in Hp. discriminate.
        -- apply IH in Hps. discriminate.
      * split; [intros _; right; apply IH; reflexivity | reflexivity].
Qed.

(** [generateMask] throws exactly when a 2D context is had and some stored
    path has no point (the read of [path.points[0].x]); without a context it
    returns before looking at the paths and [onMaskReady] is not called. *)
Theorem generateMask_throws_iff (st : State) :
  (generateMask true st = TypeError
   <-> Exists (fun p => points p = []) (paths st))
  /\ generateMask false st = Normal None.
Proof.
  split; [|reflexivity].
  unfold generateMask. cbn [negb]. rewrite <- forEachPath_TypeError.
  destruct (forEachPath (paths st)); cbn [bind]; split; congruence.
Qed.

Lemma generateMask_throws_iff_witness :
  generateMask true EdgeStates.pointlessPathState = TypeError
  /\ ~ Exists (fun p => points p = []) (paths drawnState).
Proof.
  destruct (generateMask_throws_iff EdgeStates.pointlessPathState) as ((_ & B) & _).
  destruct (generateMask_throws_iff drawnState) as ((_ & F) & _).
  split.
  - apply B. left. reflexivity.
  - intros X. apply F in X. discriminate.
Defined.

End ExportInputs.

(* ================================================================== *)
(** ** Further properties: the scaler over the rationals *)

Section Geometry.
Import JsNum CanvasEditor.
Open Scope Q_scope.

(** No upscaling and no needless shrinking: an image of positive size that
    is no larger than the container in both directions is shown at scale 1. *)
Theorem image_that_fits_is_not_scaled (c : Container)
    (innerHeight imgW imgH : Z)
    (Hw : (0 < imgW <= clientWidth c)%Z) (Hh : (0 < imgH <= clientHeight c)%Z) :
  exists r, newScale c innerHeight imgW imgH = Fin r /\ r == 1.
Proof.
  destruct Hw as (Hw & Hcw). destruct Hh as (Hh & Hch).
  pose proof (inject_Z_pos imgW Hw) as Pw.
  pose proof (inject_Z_pos imgH Hh) as Ph.
  rewrite newScale_contract. unfold effectiveHeight.
  destruct (Z.eqb_spec (clientHeight c) 0) as [Z0|_]; [lia|].
  unfold scaleContract, min3, of_Z.
  rewrite !div_Fin by (intros Z; rewrite Z in *; eapply Qlt_irrefl; eassumption).
  assert (A : 1 <= inject_Z (clientWidth c) / inject_Z imgW).
  { apply Qle_shift_div_l; [exact Pw|]. rewrite Qmult_1_l, <- Zle_Qle. exact Hcw. }
  assert (B : 1 <= inject_Z (clientHeight c) / inject_Z imgH).
  { apply Qle_shift_div_l; [exact Ph|]. rewrite Qmult_1_l, <- Zle_Qle. exact Hch. }
  destruct (min2_Fin_le (inject_Z (clientWidth c) / inject_Z imgW)
                        (inject_Z (clientHeight c) / inject_Z imgH))
    as (m & -> & _ & _ & Mc).
  assert (M1 : 1 <= m) by (destruct Mc as [-> | ->]; assumption).
  destruct (min2_Fin_le m (inject_Z 1)) as (r & -> & _ & R2 & Rc).
  exists r. split; [reflexivity|].
  destruct Rc as [-> | ->]; [|reflexivity].
  apply Qle_antisym; assumption.
Qed.

Lemma image_that_fits_is_not_scaled_witness :
  exists r,
    newScale {| clientWidth := 1024; clientHeight := 768 |} 900 800 600 = Fin r
    /\ r == 1.
Proof.
  apply (image_that_fits_is_not_scaled
           {| clientWidth := 1024; clientHeight := 768 |} 900 800 600);
    cbn; lia.
Defined.

(** A resize starts from the stored image size: before the image is loaded
    it does nothing, and after a load of an image of positive width, a resize
    with a container present leaves the state a load in that container would
    have left. *)
Theorem resize_recomputes_from_image (c1 : option Container) (c2 : Container)
    (ih1 ih2 w h : Z) (st : State) :
  ((width (imgDimensions st) <= 0)%Z -> handleResize (Some c2) ih2 st = st)
  /\ ((0 < w)%Z ->
      handleResize (Some c2) ih2 (imgOnload c1 ih1 w h st)
      = imgOnload (Some c2) ih2 w h st).
Proof.
  split.
  - intros Hn. unfold handleResize.
    destruct (Z.ltb_spec 0 (width (imgDimensions st))); [lia | reflexivity].
  - intros Hw. unfold handleResize, imgOnload.
    rewrite fitImageToContainer_dims. cbn [setImgDimensions imgDimensions width height].
    destruct (Z.ltb_spec 0 w); [|lia].
    destruct c1; reflexivity.
Qed.

Lemma resize_recomputes_from_image_witness :
  handleResize (Some {| clientWidth := 200; clientHeight := 300 |}) 500
    initialState = initialState
  /\ handleResize (Some {| clientWidth := 200; clientHeight := 300 |}) 500
       (imgOnload (Some {| clientWidth := 400; clientHeight := 300 |}) 500
          800 600 initialState)
     = imgOnload (Some {| clientWidth := 200; clientHeight := 300 |}) 500
         800 600 initialState.
Proof.
  destruct (resize_recomputes_from_image
              (Some {| clientWidth := 400; clientHeight := 300 |})
              {| clientWidth := 200; clientHeight := 300 |}
              500 500 800 600 initialState) as (A & B).
  split; [apply A; cbn; lia | apply B; lia].
Defined.

End Geometry.

(* ================================================================== *)
(** ** Further properties: the inpainting service *)

Section Service.
Import GeminiService ServiceSpec.
Open Scope string_scope.

Lemma split_comma_commaFree (s : string) :
  commaFree s = true -> split_comma s = [s].
Proof.
  induction s as [|c rest IH]; [reflexivity|].
  cbn [commaFree split_comma]. intros H. apply andb_true_iff in H as [Hc Hr].
  apply negb_true_iff in Hc. rewrite Hc, (IH Hr). reflexivity.
Qed.

Lemma split_comma_prefix (prefix rest : string) :
  commaFree prefix = true ->
  split_comma (prefix ++ "," ++ rest) = prefix :: split_comma rest.
Proof.
  induction prefix as [|c p IH]; [reflexivity|].
  cbn [commaFree]. intros H. apply andb_true_iff in H as [Hc Hp].
  apply negb_true_iff in Hc.
  change (String c p ++ "," ++ rest) with (String c (p ++ "," ++ rest)).
  cbn [split_comma]. rewrite Hc, (IH Hp). reflexivity.
Qed.

Lemma split_comma_segments (s : string) :
  Forall (fun seg => commaFree seg = true) (split_comma s).
Proof.
  induction s as [|c rest IH]; [repeat constructor|].
  cbn [split_comma]. destruct (Ascii.eqb c ",") eqn:Hc.
  - constructor; [reflexivity | exact IH].
  - destruct (split_comma rest) as [|seg segs]; [repeat constructor; cbn; rewrite Hc; reflexivity|].
    inversion IH as [|? ? Hseg Hsegs]; subst.
    constructor; [|exact Hsegs]. cbn [commaFree]. rewrite Hc, Hseg. reflexivity.
Qed.

Lemma cleanBase64_commaFree (s : string) :
  commaFree s = true -> cleanBase64 s = s.
Proof.
  intros H. unfold cleanBase64. rewrite (split_comma_commaFree s H). reflexivity.
Qed.

Lemma cleanBase64_cases (s : string) :
  cleanBase64 s = s \/ commaFree (cleanBase64 s) = true.
Proof.
  unfold cleanBase64. pose proof (split_comma_segments s) as F.
  destruct (split_comma s) as [|s0 [|s1 segs]]; cbn [nth_error]; auto.
  inversion F as [|? ? _ F1]; subst. inversion F1 as [|? ? H1 _]; subst.
  destruct s1; auto.
Qed.

(** Round trip with a data URL: when neither the header nor the payload
    holds a comma and the payload is not empty, cleaning
    [header,payload] gives the payload. *)
Theorem cleanBase64_data_url (header payload : string)
    (Hh : commaFree header = true) (Hp : commaFree payload = true)
    (Hne : payload <> "") :
  cleanBase64 (header ++ "," ++ payload) = payload.
Proof.
  unfold cleanBase64.
  rewrite (split_comma_prefix header payload Hh), (split_comma_commaFree payload Hp).
  cbn [nth_error]. destruct payload; [contradiction | reflexivity].
Qed.

Lemma cleanBase64_data_url_witness :
  cleanBase64 "data:image/png;base64,iVBORw0KGgo=" = "iVBORw0KGgo=".
Proof.
  apply (cleanBase64_data_url "data:image/png;base64" "iVBORw0KGgo=").
  - reflexivity.
  - reflexivity.
  - discriminate.
Defined.

(** Cleaning is idempotent, and a string without a comma is left as it
    is: what is sent is either the whole input or a segment free of
    commas. *)
Theorem cleanBase64_idempotent (s : string) :
  cleanBase64 (cleanBase64 s) = cleanBase64 s
  /\ (commaFree s = true -> cleanBase64 s = s).
Proof.
  split; [|apply cleanBase64_commaFree].
  destruct (cleanBase64_cases s) as [E | C].
  - rewrite E. exact E.
  - apply cleanBase64_commaFree. exact C.
Qed.

Lemma cleanBase64_idempotent_witness :
  cleanBase64 (cleanBase64 "a,b,c") = cleanBase64 "a,b,c"
  /\ cleanBase64 "iVBORw0KGgo=" = "iVBORw0KGgo=".
Proof.
  destruct (cleanBase64_idempotent "a,b,c") as (I & _).
  destruct (cleanBase64_idempotent "iVBORw0KGgo=") as (_ & F).
  split; [exact I | apply F; reflexivity].
Defined.

Lemma firstImage_first (pre post : list Part) (part : Part) (d : string) :
  Forall holdsNoImage pre -> holdsImage part d ->
  firstImage (pre ++ part :: post) = Some ("data:image/png;base64," ++ d).
Proof.
  intros F (inline & Ei & Ed & Hd). induction F as [|p pre Hp F IH].
  - cbn [app firstImage]. rewrite Ei, Ed.
    destruct d; [contradiction | reflexivity].
  - cbn [app firstImage].
    destruct (inlineData p) as [i|] eqn:Ep; [|exact IH].
    destruct (data i) as [[|c0 d0]|] eqn:Edp; cbn [truthyString]; try exact IH.
    exfalso. apply (Hp (String c0 d0)). exists i.
    split; [exact Ep|]. split; [exact Edp | discriminate].
Qed.

Lemma firstImage_none (ps : list Part) :
  Forall holdsNoImage ps -> firstImage ps = None.
Proof.
  induction 1 as [|p ps Hp F IH]; [reflexivity|].
  cbn [firstImage].
  destruct (inlineData p) as [i|] eqn:Ep; [|exact IH].
  destruct (data i) as [[|c0 d0]|] eqn:Edp; cbn [truthyString]; try exact IH.
  exfalso. apply (Hp (String c0 d0)). exists i.
  split; [exact Ep|]. split; [exact Edp | discriminate].
Qed.

Lemma firstImage_not_empty (ps : list Part) (url : string) :
  firstImage ps = Some url -> url <> "".
Proof.
  induction ps as [|p ps IH]; [discriminate|].
  cbn [firstImage].
  destruct (inlineData p) as [i|]; [|exact IH].
  destruct (truthyString (data i)); [|exact IH].
  intros E. injection E as <-. discriminate.
Qed.

Lemma loopParts_parts (response : GenerateContentResponse) (ps : list Part) :
  loopParts response ps ->
  match firstCandidateParts response with Some l => l | None => [] end = ps.
Proof.
  unfold firstCandidateParts.
  intros [c cs ct l Ec Ect Ep | Ec | Ec | c cs Ec Ect | c cs ct Ec Ect Ep];
    rewrite Ec; try reflexivity; rewrite Ect; try reflexivity;
    rewrite Ep; reflexivity.
Qed.

Lemma loopParts_text (response : GenerateContentResponse) (ps : list Part) :
  loopParts response ps ->
  textResponse response
  = match ps with
    | p :: _ => match truthyString (text p) with Some t => t | None => "" end
    | [] => ""
    end.
Proof.
  unfold textResponse, firstCandidateParts.
  intros [c cs ct l Ec Ect Ep | Ec | Ec | c cs Ec Ect | c cs ct Ec Ect Ep];
    rewrite Ec; try reflexivity; rewrite Ect; try reflexivity;
    rewrite Ep; try reflexivity; destruct ps; reflexivity.
Qed.

Lemma refusalText_message (response : GenerateContentResponse)
    (ps : list Part) (t : string) :
  loopParts response ps -> refusalText ps t ->
  match textResponse response with
  | EmptyString => noImageMessage
  | other => other
  end = t
  /\ t <> "".
Proof.
  intros L R. rewrite (loopParts_text response ps L).
  destruct R as [p rest t Et Ht | | p rest Et | p rest Et].
  - rewrite Et. destruct t; [contradiction|]. split; [reflexivity | discriminate].
  - split; [reflexivity | discriminate].
  - rewrite Et. split; [reflexivity | discriminate].
  - rewrite Et. split; [reflexivity | discriminate].
Qed.

(** What [removeWatermark] settles with. A rejection of the call is passed
    on unchanged. Otherwise, over the parts of the first candidate: if some
    part holds non-empty inline data, the promise resolves with
    [data:image/png;base64,] followed by the data of the first such part
    (which cleaning gives back when it holds no comma); if no part does, it
    rejects with an [Error] whose message is the first part's text when that
    is non-empty and the fixed no-image message otherwise.  The request
    carries the cleaned original under the caller's MIME type, then the
    cleaned mask as PNG. *)
Theorem removeWatermark_outcome
    (generateContent : Request -> Settled GenerateContentResponse)
    (originalBase64 maskBase64 mimeType : string) :
  let request := buildRequest originalBase64 maskBase64 mimeType in
  let outcome :=
    removeWatermark generateContent originalBase64 maskBase64 mimeType in
  map inlineData (request_parts request)
  = [None;
     Some {| GeminiService.mimeType := Some mimeType;
             data := Some (cleanBase64 originalBase64) |};
     Some {| GeminiService.mimeType := Some "image/png";
             data := Some (cleanBase64 maskBase64) |}]
  /\ (forall error,
        generateContent request = Rejected error -> outcome = Rejected error)
  /\ (forall response ps,
        generateContent request = Resolved response ->
        loopParts response ps ->
        (forall pre part post d,
           ps = (pre ++ part :: post)%list ->
           Forall holdsNoImage pre -> holdsImage part d ->
           outcome = Resolved ("data:image/png;base64," ++ d)
           /\ (commaFree d = true ->
               cleanBase64 ("data:image/png;base64," ++ d) = d))
        /\ (Forall holdsNoImage ps ->
            forall t, refusalText ps t ->
                      outcome = Rejected (WithMessage t) /\ t <> "")).
Proof.
  cbn zeta. split; [reflexivity|]. unfold removeWatermark. split.
  - intros error G. rewrite G. reflexivity.
  - intros response ps G L. rewrite G. unfold extractImage.
    rewrite (loopParts_parts response ps L). split.
    + intros pre part post d -> F H.
      rewrite (firstImage_first pre post part d F H).
      split; [reflexivity|]. intros Hc.
      destruct H as (_ & _ & _ & Hd).
      apply (cleanBase64_data_url "data:image/png;base64" d);
        [reflexivity | exact Hc | exact Hd].
    + intros F t R. rewrite (firstImage_none ps F).
      destruct (refusalText_message response ps t L R) as (-> & Ht).
      split; [reflexivity | exact Ht].
Qed.

End Service.

Section ServiceScenarios.
Import GeminiService ServiceSpec ServiceScenario.
Open Scope string_scope.

(** The response whose second part holds an image resolves with that
    image; the text-only response is refused with its text; a rejected call
    is passed on. *)
Lemma removeWatermark_outcome_witness :
  removeWatermark (respondWith imageResponse)
    "data:image/jpeg;base64,/9j/4AAQSkZJRg==" "data:," "image/jpeg"
  = Resolved "data:image/png;base64,iVBORw0KGgo="
  /\ cleanBase64 "data:image/png;base64,iVBORw0KGgo=" = "iVBORw0KGgo="
  /\ removeWatermark (respondWith refusalResponse)
       "data:image/jpeg;base64,/9j/4AAQSkZJRg==" "data:," "image/jpeg"
     = Rejected (WithMessage "I cannot edit this image.")
  /\ removeWatermark (failWith "429 quota exceeded")
       "data:image/jpeg;base64,/9j/4AAQSkZJRg==" "data:," "image/jpeg"
     = Rejected (WithMessage "429 quota exceeded").
Proof.
  destruct (removeWatermark_outcome (respondWith imageResponse)
              "data:image/jpeg;base64,/9j/4AAQSkZJRg==" "data:," "image/jpeg")
    as (_ & _ & R).
  destruct (removeWatermark_outcome (respondWith refusalResponse)
              "data:image/jpeg;base64,/9j/4AAQSkZJRg==" "data:," "image/jpeg")
    as (_ & _ & N).
  destruct (removeWatermark_outcome (failWith "429 quota exceeded")
              "data:image/jpeg;base64,/9j/4AAQSkZJRg==" "data:," "image/jpeg")
    as (_ & F & _).
  assert (Limg : loopParts imageResponse
                   [{| text := Some "Here is the edited image.";
                       inlineData := None |};
                    {| text := None;
                       inlineData := Some {| mimeType := Some "image/png";
                                             data := Some "iVBORw0KGgo=" |} |}])
    by (eapply parts_present; reflexivity).
  assert (Lref : loopParts refusalResponse
                   [{| text := Some "I cannot edit this image.";
                       inlineData := None |}])
    by (eapply parts_present; reflexivity).
  destruct (R _ _ eq_refl Limg) as (Ri & _).
  destruct (N _ _ eq_refl Lref) as (_ & Nr).
  assert (Hno : holdsNoImage {| text := Some "Here is the edited image.";
                                inlineData := None |})
    by (intros d (i & Ei & _); discriminate).
  assert (Hno' : holdsNoImage {| text := Some "I cannot edit this image.";
                                 inlineData := None |})
    by (intros d (i & Ei & _); discriminate).
  destruct (Ri [_] _ [] "iVBORw0KGgo=" eq_refl (Forall_cons _ Hno (Forall_nil _)))
    as (Ei & Ci).
  { eexists. split; [reflexivity|]. split; [reflexivity | discriminate]. }
  destruct (Nr (Forall_cons _ Hno' (Forall_nil _)) "I cannot edit this image.")
    as (En & _).
  { apply refusal_text; [reflexivity | discriminate]. }
  split; [exact Ei|]. split; [apply Ci; reflexivity|].
  split; [exact En|]. apply F. reflexivity.
Defined.

End ServiceScenarios.

(* ================================================================== *)
(** ** Further properties: the handlers of App *)

Section AppProperties.
Import GeminiService AppHandlers ServiceScenario.
Open Scope string_scope.

Lemma classify_not_empty (m : string) : classify m <> "".
Proof.
  unfold classify.
  destruct (includes "403" m || includes "API key" m); [discriminate|].
  destruct (includes "429" m || includes "quota" m); [discriminate|].
  destruct (includes "500" m || includes "503" m); discriminate.
Qed.

Lemma errorText_not_empty (error : Thrown) (t : string) :
  errorText error = Some t -> t <> "".
Proof.
  destruct error as [|m| |]; cbn [errorText]; try discriminate.
  - destruct m.
    + intros E. injection E as <-. discriminate.
    + intros E. injection E as <-. apply classify_not_empty.
  - intros E. injection E as <-. discriminate.
Qed.

Lemma removeWatermark_url_not_empty
    (generateContent : Request -> Settled GenerateContentResponse)
    (o m t url : string) :
  removeWatermark generateContent o m t = Resolved url ->
  truthyString (Some url) = Some url.
Proof.
  unfold removeWatermark, extractImage.
  destruct (generateContent _) as [response|error]; [|discriminate].
  destruct (firstImage _) as [u|] eqn:F; [|discriminate].
  intros E. injection E as <-.
  apply firstImage_not_empty in F. destruct u; [contradiction | reflexivity].
Qed.

(** What [handleMaskReady] leaves. Without an image it does nothing. With
    one, when the request has settled, [isProcessing] is false again and the
    image and counter are as before; on success the result is stored, no
    error is shown and the result view replaces the editor; on failure the
    result is as before, and the error shown is a non-empty message, except
    when the [catch] block itself throws (a [null] or [undefined] rejection,
    or a message without [includes]): then no error is shown. *)
Theorem handleMaskReady_outcome
    (generateContent : Request -> Settled GenerateContentResponse)
    (maskBase64 : string) (s : AppState) :
  (truthyString (imageSrc s) = None ->
   handleMaskReady generateContent maskBase64 s = s)
  /\ forall src,
       truthyString (imageSrc s) = Some src ->
       let s' := handleMaskReady generateContent maskBase64 s in
       isProcessing s' = false
       /\ imageSrc s' = imageSrc s
       /\ exportTrigger s' = exportTrigger s
       /\ (forall url,
             removeWatermark generateContent src maskBase64 (originalMimeType s)
             = Resolved url ->
             processedImage s' = Some url /\ errorMsg s' = None
             /\ view s' = ResultView)
       /\ (forall error,
             removeWatermark generateContent src maskBase64 (originalMimeType s)
             = Rejected error ->
             processedImage s' = processedImage s
             /\ (error = Nullish \/ error = WithOddMessage ->
                 errorMsg s' = None)
             /\ (error = WithoutMessage \/ error = WithMessage "" ->
                 errorMsg s' = Some defaultErrorText)
             /\ (error <> Nullish -> error <> WithOddMessage ->
                 exists t, errorMsg s' = Some t /\ t <> "")).
Proof.
  unfold handleMaskReady. split.
  - intros ->. reflexivity.
  - intros src E. rewrite E. cbn zeta.
    split; [reflexivity|]. split; [reflexivity|]. split; [reflexivity|].
    split.
    + intros url R. rewrite R.
      split; [reflexivity|]. split; [reflexivity|].
      unfold view, settleProcessing, beginProcessing.
      cbn [imageSrc processedImage]. rewrite E.
      rewrite (removeWatermark_url_not_empty _ _ _ _ _ R). reflexivity.
    + intros error R. rewrite R.
      unfold settleProcessing, beginProcessing. cbn [processedImage errorMsg].
      split; [reflexivity|]. split; [|split].
      * intros [-> | ->]; reflexivity.
      * intros [-> | ->]; reflexivity.
      * intros N1 N2. destruct (errorText error) as [t|] eqn:T.
        -- exists t. split; [reflexivity|]. apply (errorText_not_empty _ _ T).
        -- destruct error; try contradiction; try discriminate.
           destruct message; discriminate.
Qed.

Lemma handleMaskReady_outcome_witness :
  handleMaskReady (respondWith imageResponse) "data:," initialApp = initialApp
  /\ isProcessing (handleMaskReady (respondWith imageResponse) "data:,"
                     editingApp) = false
  /\ view (handleMaskReady (respondWith imageResponse) "data:," editingApp)
     = ResultView
  /\ (exists t,
        errorMsg (handleMaskReady (respondWith refusalResponse) "data:,"
                    editingApp) = Some t /\ t <> "")
  /\ errorMsg (handleMaskReady (fun _ => Rejected Nullish) "data:,"
                 editingApp) = None.
Proof.
  destruct (handleMaskReady_outcome (respondWith imageResponse) "data:,"
              initialApp) as (N & _).
  destruct (handleMaskReady_outcome (respondWith imageResponse) "data:,"
              editingApp) as (_ & Y).
  destruct (handleMaskReady_outcome (respondWith refusalResponse) "data:,"
              editingApp) as (_ & F).
  destruct (handleMaskReady_outcome (fun _ => Rejected Nullish) "data:,"
              editingApp) as (_ & Z).
  destruct (Y _ eq_refl) as (P & _ & _ & S & _).
  destruct (F _ eq_refl) as (_ & _ & _ & _ & X).
  destruct (Z _ eq_refl) as (_ & _ & _ & _ & W).
  destruct (X _ eq_refl) as (_ & _ & _ & X3).
  destruct (W _ eq_refl) as (_ & W1 & _).
  split; [apply N; reflexivity|]. split; [exact P|].
  split; [apply (S _ eq_refl)|].
  split; [apply X3; discriminate|].
  apply W1. left. reflexivity.
Defined.

(** Reset, then a new image: the editor is shown again with the export
    counter back at 0 and no error or result left, whatever the state
    before; the processing flag, brush size and MIME type are not touched by
    the reset. *)
Theorem reset_then_load (url : string) (s : AppState)
    (H : truthyString (Some url) = Some url) :
  let s' := readerOnload (Some url) (handleReset s) in
  view (handleReset s) = UploadView
  /\ view s' = EditorView
  /\ exportTrigger s' = 0
  /\ errorMsg s' = None
  /\ isProcessing s' = isProcessing s
  /\ brushSize s' = brushSize s
  /\ originalMimeType s' = originalMimeType s.
Proof.
  cbn zeta. split; [reflexivity|]. split.
  - unfold view. cbn [readerOnload handleReset imageSrc processedImage].
    rewrite H. reflexivity.
  - repeat split.
Qed.

Lemma reset_then_load_witness :
  view (readerOnload (Some "data:image/png;base64,iVBORw0KGgo=")
          (handleReset editingApp)) = EditorView
  /\ exportTrigger (readerOnload (Some "data:image/png;base64,iVBORw0KGgo=")
                      (handleReset editingApp)) = 0.
Proof.
  destruct (reset_then_load "data:image/png;base64,iVBORw0KGgo=" editingApp
              eq_refl) as (_ & V & T & _).
  split; [exact V | exact T].
Defined.

End AppProperties.

(* ================================================================== *)
(** ** Further properties: processing and repeated exports *)

Section Processing.
Import JsNum CanvasEditor App Scenario.

(** While a request is in flight, pointer down, pointer move, undo and
    clear leave the whole state of the editor as it is.  The end of a gesture
    is not gated: [stopDrawing] does not read [isProcessing]. *)
Theorem processing_freezes_editing (props : Props) (cv : option Canvas)
    (e : PointerEvt) (st : State) (H : isProcessing props = true) :
  step props (PointerDown cv e) st = st
  /\ step props (PointerMove cv e) st = st
  /\ step props UndoClick st = st
  /\ step props ClearClick st = st
  /\ forall props',
       brushSize props' = brushSize props ->
       step props PointerUp st = step props' PointerUp st.
Proof.
  cbn [step]. unfold startDrawing, draw, toolbarVisible. rewrite H.
  rewrite orb_true_r, andb_false_r.
  repeat (split; [reflexivity|]).
  intros props' B. unfold stopDrawing. rewrite B. reflexivity.
Qed.

Lemma processing_freezes_editing_witness :
  let busy := {| brushSize := 30; isProcessing := true; triggerExport := 1 |} in
  step busy (PointerDown (Some halfScaleCanvas) (Mouse (Fin 110) (Fin 70)))
    drawnState = drawnState
  /\ step busy UndoClick drawnState = drawnState
  /\ step busy ClearClick drawnState = drawnState.
Proof.
  intros busy.
  destruct (processing_freezes_editing busy (Some halfScaleCanvas)
              (Mouse (Fin 110) (Fin 70)) drawnState eq_refl)
    as (D & _ & U & C & _).
  split; [exact D|]. split; [exact U | exact C].
Defined.

Lemma turn_start_processing (t : Turn) (s : Session) :
  committed s -> isStartProcessing t = true -> turn_context2d t = true ->
  exists s' m,
    turn t s = Normal s'
    /\ committed s'
    /\ editor s' = editor s
    /\ generateMask true (editor s) = Normal (Some m)
    /\ maskReadyCalls s' = maskReadyCalls s ++ [m].
Proof.
  intros (R & D & N) Ht Hc.
  destruct t as [brush processing ctx [|ev|]]; cbn in Ht, Hc; try discriminate.
  subst ctx.
  unfold turn. cbn [turn_action turn_brush turn_processing turn_context2d dispatch].
  unfold commit, depsChanged. cbn [lastDeps exportTrigger editor maskReadyCalls].
  rewrite D.
  destruct (Z.eqb_spec (exportTrigger s) (exportTrigger s + 1)) as [E|_]; [lia|].
  cbn [negb]. unfold exportEffect. cbn [triggerExport].
  destruct (Z.eqb_spec (exportTrigger s + 1) 0) as [E|_]; [lia|].
  destruct (generateMask_total true (editor s) (reachable_nonEmpty _ R))
    as (calls & G).
  rewrite G. cbn [bind].
  eexists. eexists. split; [reflexivity|].
  split; [session_facts|]. split; [reflexivity|]. split; reflexivity.
Qed.

(** Each export hands over the mask of the strokes as they are then and
    leaves the editor untouched: after any sequence of turns, two start
    clicks in a row (a 2D context being available) call [onMaskReady] twice
    with one and the same mask, that of the editor's current state. *)
Theorem export_twice_same_mask (ctx0 : bool) (brush : Z) (processing : bool)
    (ts : list Turn) (t1 t2 : Turn)
    (H1 : isStartProcessing t1 = true) (C1 : turn_context2d t1 = true)
    (H2 : isStartProcessing t2 = true) (C2 : turn_context2d t2 = true) :
  exists s0 s s2 m,
    mount ctx0 brush processing = Normal s0
    /\ run ts s0 = Normal s
    /\ run [t1; t2] s = Normal s2
    /\ generateMask true (editor s) = Normal (Some m)
    /\ editor s2 = editor s
    /\ maskReadyCalls s2 = maskReadyCalls s ++ [m; m].
Proof.
  destruct (mount_committed ctx0 brush processing) as (s0 & M & K0 & _).
  destruct (run_committed ts s0 K0) as (s & Rn & K & _).
  destruct (turn_start_processing t1 s K H1 C1) as (s1 & m & T1 & K1 & E1 & G1 & L1).
  destruct (turn_start_processing t2 s1 K1 H2 C2) as (s2 & m' & T2 & _ & E2 & G2 & L2).
  rewrite E1, G1 in G2. injection G2 as <-.
  exists s0, s, s2, m. split; [exact M|]. split; [exact Rn|].
  split; [cbn [run]; rewrite T1; cbn [bind]; rewrite T2; reflexivity|].
  split; [exact G1|]. split; [rewrite E2; exact E1|].
  rewrite L2, L1, <- app_assoc. reflexivity.
Qed.

Lemma export_twice_same_mask_witness :
  exists s0 s s2 m,
    mount true 30 false = Normal s0
    /\ run (map okTurn (map EditorEvent sampleEvents)) s0 = Normal s
    /\ run [okTurn HandleStartProcessing; okTurn HandleStartProcessing] s
       = Normal s2
    /\ generateMask true (editor s) = Normal (Some m)
    /\ editor s2 = editor s
    /\ maskReadyCalls s2 = maskReadyCalls s ++ [m; m].
Proof.
  apply (export_twice_same_mask true 30 false
           (map okTurn (map EditorEvent sampleEvents))
           (okTurn HandleStartProcessing) (okTurn HandleStartProcessing));
    reflexivity.
Defined.

End Processing.

(* ================================================================== *)
(** ** Further properties: the mask once the image has loaded *)

Section LoadedImage.
Import JsNum CanvasEditor ImageLoader Scenario.

Lemma showing_reachable (img : HTMLImage) (b : bool) (st : State) :
  showing img b st -> reachable st.
Proof.
  induction 1; [apply reachable_init | | ]; apply reachable_step; assumption.
Qed.

Lemma step_keeps_dimensions (props : Props) (ev : Event) (st : State) :
  isImgOnload ev = false ->
  imgDimensions (step props ev st) = imgDimensions st.
Proof.
  destruct ev as [c ih w h|c ih|cv e|cv e| | |]; cbn [isImgOnload step];
    [discriminate| | | | | |]; intros _.
  - unfold handleResize. destruct (0 <? width (imgDimensions st));
      [apply fitImageToContainer_dims | reflexivity].
  - apply startDrawing_frame.
  - apply draw_frame.
  - apply stopDrawing_dims.
  - destruct (toolbarVisible props st); reflexivity.
  - destruct (toolbarVisible props st); reflexivity.
Qed.

Lemma showing_dimensions (img : HTMLImage) (st : State) :
  showing img true st ->
  imgDimensions st = {| width := img_width img; height := img_height img |}.
Proof.
  intros H. remember true as b eqn:Eb.
  induction H as [|b props c ih st H IH|b props ev st H IH Hev].
  - discriminate.
  - cbn [onloadOf step]. unfold imgOnload.
    rewrite fitImageToContainer_dims. reflexivity.
  - rewrite (step_keeps_dimensions props ev st Hev). apply IH. exact Eb.
Qed.

(** Once [img.onload] has run, every export produces a mask of exactly the
    native size of the source image: after the load of the image and any
    further drawing, undo, clear and resize events, an export trigger other
    than 0 (with a 2D context) hands over a mask whose width and height are
    the image's, and the same mask whatever the display scale. *)
Theorem mask_after_image_load (img : HTMLImage) (props : Props) (st : State)
    (H : showing img true st) (Ht : triggerExport props <> 0) :
  exists m,
    exportEffect props true st = Normal (Some m)
    /\ mask_width m = img_width img
    /\ mask_height m = img_height img
    /\ forall s, exportEffect props true (setScale s st) = Normal (Some m).
Proof.
  pose proof (showing_dimensions img st H) as D.
  destruct (generateMask_total true st
              (reachable_nonEmpty st (showing_reachable img true st H)))
    as (calls & G).
  unfold exportEffect. destruct (Z.eqb_spec (triggerExport props) 0) as [Z0|_];
    [contradiction|].
  eexists. split; [exact G|].
  split; [cbn [mask_width]; rewrite D; reflexivity|].
  split; [cbn [mask_height]; rewrite D; reflexivity|].
  intros s. rewrite <- G. apply generateMask_inputs; reflexivity.
Qed.

(** The 800x600 image loaded in a 400x300 container, one stroke drawn, the
    window resized: the mask is 800x600. *)
Lemma mask_after_image_load_witness :
  let img := {| img_width := 800; img_height := 600 |} in
  let st := step drawingProps
              (WindowResize (Some {| clientWidth := 200; clientHeight := 150 |}) 500)
              drawnState in
  exists m,
    exportEffect exportProps true st = Normal (Some m)
    /\ mask_width m = 800 /\ mask_height m = 600.
Proof.
  intros img st.
  assert (S : showing img true st).
  { unfold st, drawnState.
    apply showing_event; [|reflexivity].
    apply showing_event; [|reflexivity].
    apply showing_event; [|reflexivity].
    apply showing_event; [|reflexivity].
    apply (showing_loaded img false drawingProps
             (Some {| clientWidth := 400; clientHeight := 300 |}) 500).
    apply showing_mounted. }
  destruct (mask_after_image_load img exportProps st S) as (m & E & W & Hh & _).
  - discriminate.
  - exists m. split; [exact E|]. split; [exact W | exact Hh].
Defined.

End LoadedImage.
